(** * The OCS re-encryption protocol (ocs/protocol/ocs.go)

    A shallow embedding of the root and child handlers of the on-chain
    secrets re-encryption protocol, and the properties of its quorum
    logic and of its discrete-log-equality proofs. *)

From Stdlib Require Import ZArith Lia String.
From Stdlib.Strings Require Import Byte.
From stdpp Require Import base option list.

Local Open Scope Z_scope.

(** ** Go's [int]

    [int] is taken at 64 bits, its width on amd64; additions and
    subtractions wrap around. *)

Definition min_int : Z := - 2 ^ 63.
Definition max_int : Z := 2 ^ 63 - 1.

Definition wrap (z : Z) : Z := (z + 2 ^ 63) mod 2 ^ 64 - 2 ^ 63.

Definition int_add (a b : Z) : Z := wrap (a + b).
Definition int_sub (a b : Z) : Z := wrap (a - b).
(** Go's [/] on integers truncates towards zero. *)
Definition int_div (a b : Z) : Z := wrap (Z.quot a b).

(** [len] of a slice, as an [int]. *)
Definition len {A} (l : list A) : Z := Z.of_nat (length l).

(** ** Panics

    A handler either returns or panics (nil dereference, index out of
    range). *)

Inductive result (A : Type) : Type :=
  | Ok (a : A)
  | Panic.
Arguments Ok {A} a.
Arguments Panic {A}.

#[global] Instance result_ret : MRet result := fun _ a => Ok a.
#[global] Instance result_bind : MBind result := fun _ _ f m =>
  match m with
  | Ok a => f a
  | Panic => Panic
  end.

(** Dereferencing a pointer or calling a method on an interface value:
    nil panics. *)
Definition deref {A} (p : option A) : result A :=
  match p with
  | Some a => Ok a
  | None => Panic
  end.

Definition error : Type := string.

(** ** The cryptographic suite

    [kyber.Scalar] and [kyber.Point] are interfaces; [cothority.Suite]
    picks their implementation.  The protocol also uses [crypto/sha256]. *)

Class Suite : Type := {
  Scalar : Type;
  Point : Type;
  scalar_add : Scalar -> Scalar -> Scalar;
  scalar_mul : Scalar -> Scalar -> Scalar;
  scalar_neg : Scalar -> Scalar;
  scalar_equal : Scalar -> Scalar -> bool;
  scalar_setbytes : list byte -> Scalar;
  point_null : Point;
  point_base : Point;
  point_add : Point -> Point -> Point;
  point_mul : Scalar -> Point -> Point;
  point_marshal : Point -> list byte;
  sha256_sum : list byte -> list byte;
}.

(** The algebra the suite is expected to satisfy: points form a module
    over the scalars, and [Equal] decides equality. *)
Class SuiteLaws (S : Suite) : Prop := {
  point_add_assoc : forall P Q R : Point,
    point_add P (point_add Q R) = point_add (point_add P Q) R;
  point_add_null_r : forall P : Point, point_add P point_null = P;
  point_mul_add_scalar : forall (a b : Scalar) (P : Point),
    point_mul (scalar_add a b) P = point_add (point_mul a P) (point_mul b P);
  point_mul_add_point : forall (a : Scalar) (P Q : Point),
    point_mul a (point_add P Q) = point_add (point_mul a P) (point_mul a Q);
  point_mul_mul : forall (a b : Scalar) (P : Point),
    point_mul (scalar_mul a b) P = point_mul a (point_mul b P);
  point_mul_neg : forall (a : Scalar) (P : Point),
    point_add (point_mul a P) (point_mul (scalar_neg a) P) = point_null;
  scalar_equal_eq : forall a b : Scalar, scalar_equal a b = true <-> a = b;
}.

Section Protocol.
Context {suite : Suite}.

(** [Point().Mul(s, p)]: a nil [p] stands for the standard base point. *)
Definition Mul (s : Scalar) (p : option Point) : Point :=
  match p with
  | Some P => point_mul s P
  | None => point_mul s point_base
  end.

(** [sha256.New()] fed with three marshalled points, then
    [Scalar().SetBytes(hash.Sum(nil))]. *)
Definition hashPoints (a b c : Point) : Scalar :=
  scalar_setbytes
    (sha256_sum (point_marshal a ++ point_marshal b ++ point_marshal c)).

(** ** Messages and state

    The pointers and interface values of the instance are optional:
    [NewOCS] leaves [Shared], [Poly], [U], [Xc] and [Verify] nil, and
    [ReencryptReply{}] has all its fields nil.  A request that has
    reached a node carries both its points. *)

(** [share.PubShare] *)
Record PubShare : Type := { I : Z; V : Point }.

(** [SharedSecret]: the fields the protocol reads. *)
Record SharedSecret : Type := { Index : Z; sV : Scalar }.

(** [Reencrypt], the request sent to every node.  [Start] fills [U] from
    a field it has tested against nil and copies [Xc] as it is. *)
Record Reencrypt : Type := {
  rc_U : Point;
  rc_Xc : option Point;
  rc_VerificationData : option (list byte);
}.

(** [structReencrypt], the request as a node's handler receives it. *)
Record structReencrypt : Type := {
  sr_U : Point;
  sr_Xc : Point;
  sr_VerificationData : option (list byte);
}.

(** [r.Reencrypt] *)
Definition sr_Reencrypt (r : structReencrypt) : Reencrypt :=
  {| rc_U := sr_U r; rc_Xc := Some (sr_Xc r);
     rc_VerificationData := sr_VerificationData r |}.

(** [ReencryptReply]; the zero value [ReencryptReply{}] is a refusal. *)
Record ReencryptReply : Type := {
  Ui : option PubShare;
  Ei : option Scalar;
  Fi : option Scalar;
}.

Definition refusal : ReencryptReply := {| Ui := None; Ei := None; Fi := None |}.

(** [VerifyRequest] *)
Definition VerifyRequest : Type := Reencrypt -> bool.

(** What the protocol uses of the embedded [*onet.TreeNodeInstance]:
    the sizes of the roster, of the children and of the node list, the
    messages handed to [Broadcast] and [SendToParent], and whether
    [Done] has been called. *)
Record TreeNodeInstance : Type := {
  nRoster : nat;
  nChildren : nat;
  nList : nat;
  broadcasts : list Reencrypt;
  toParent : list ReencryptReply;
  isDone : bool;
}.

Record OCS : Type := {
  tni : TreeNodeInstance;
  Shared : option SharedSecret;
  Poly : option (Z -> Point);         (* [Poly.Eval(i).V] *)
  U : option Point;
  Xc : option Point;
  Threshold : Z;
  VerificationData : list byte;
  Failures : Z;
  Verify : option VerifyRequest;
  Reencrypted : list bool;            (* values sent on the channel, oldest first *)
  Uis : list (option PubShare);
  replies : list ReencryptReply;
}.

(** *** Field updates *)

Definition set_tni (t : TreeNodeInstance) (o : OCS) : OCS :=
  {| tni := t; Shared := Shared o; Poly := Poly o; U := U o; Xc := Xc o;
     Threshold := Threshold o; VerificationData := VerificationData o;
     Failures := Failures o; Verify := Verify o; Reencrypted := Reencrypted o;
     Uis := Uis o; replies := replies o |}.

Definition set_Failures (f : Z) (o : OCS) : OCS :=
  {| tni := tni o; Shared := Shared o; Poly := Poly o; U := U o; Xc := Xc o;
     Threshold := Threshold o; VerificationData := VerificationData o;
     Failures := f; Verify := Verify o; Reencrypted := Reencrypted o;
     Uis := Uis o; replies := replies o |}.

Definition set_Reencrypted (c : list bool) (o : OCS) : OCS :=
  {| tni := tni o; Shared := Shared o; Poly := Poly o; U := U o; Xc := Xc o;
     Threshold := Threshold o; VerificationData := VerificationData o;
     Failures := Failures o; Verify := Verify o; Reencrypted := c;
     Uis := Uis o; replies := replies o |}.

Definition set_Uis (us : list (option PubShare)) (o : OCS) : OCS :=
  {| tni := tni o; Shared := Shared o; Poly := Poly o; U := U o; Xc := Xc o;
     Threshold := Threshold o; VerificationData := VerificationData o;
     Failures := Failures o; Verify := Verify o; Reencrypted := Reencrypted o;
     Uis := us; replies := replies o |}.

Definition set_replies (rs : list ReencryptReply) (o : OCS) : OCS :=
  {| tni := tni o; Shared := Shared o; Poly := Poly o; U := U o; Xc := Xc o;
     Threshold := Threshold o; VerificationData := VerificationData o;
     Failures := Failures o; Verify := Verify o; Reencrypted := Reencrypted o;
     Uis := Uis o; replies := rs |}.

(** *** The tree node's operations *)

(** [o.Done()] *)
Definition Done (o : OCS) : OCS :=
  set_tni {| nRoster := nRoster (tni o); nChildren := nChildren (tni o);
             nList := nList (tni o); broadcasts := broadcasts (tni o);
             toParent := toParent (tni o); isDone := true |} o.

(** [o.SendToParent(msg)] *)
Definition SendToParent (msg : ReencryptReply) (o : OCS) : OCS :=
  set_tni {| nRoster := nRoster (tni o); nChildren := nChildren (tni o);
             nList := nList (tni o); broadcasts := broadcasts (tni o);
             toParent := toParent (tni o) ++ [msg]; isDone := isDone (tni o) |} o.

(** [o.Broadcast(msg)] *)
Definition Broadcast (msg : Reencrypt) (o : OCS) : OCS :=
  set_tni {| nRoster := nRoster (tni o); nChildren := nChildren (tni o);
             nList := nList (tni o); broadcasts := broadcasts (tni o) ++ [msg];
             toParent := toParent (tni o); isDone := isDone (tni o) |} o.

(** [o.Reencrypted <- b] *)
Definition send (b : bool) (o : OCS) : OCS :=
  set_Reencrypted (Reencrypted o ++ [b]) o.

(** ** [NewOCS] *)

Definition newThreshold (n : nat) : Z :=
  int_sub (Z.of_nat n) (int_div (int_sub (Z.of_nat n) 1) 3).

(** The struct literal of [NewOCS]. *)
Definition initOCS (n : TreeNodeInstance) : OCS :=
  {| tni := n; Shared := None; Poly := None; U := None; Xc := None;
     Threshold := newThreshold (nRoster n);
     VerificationData := []; Failures := 0; Verify := None;
     Reencrypted := []; Uis := []; replies := [] |}.

(** [regErr] is what [RegisterHandlers] returns. *)
Definition NewOCS (n : TreeNodeInstance) (regErr : option error)
    : option OCS * option error :=
  let o := initOCS n in
  match regErr with
  | Some err => (None, Some err)
  | None => (Some o, None)
  end.

(** The fields the caller initialises before [Start]. *)
Definition configure (sh : option SharedSecret) (poly : option (Z -> Point))
    (u xc : option Point) (vd : list byte) (verify : option VerifyRequest)
    (o : OCS) : OCS :=
  {| tni := tni o; Shared := sh; Poly := poly; U := u; Xc := xc;
     Threshold := Threshold o; VerificationData := vd;
     Failures := Failures o; Verify := verify; Reencrypted := Reencrypted o;
     Uis := Uis o; replies := replies o |}.

(** ** [getUI] *)

Definition getUI (o : OCS) (U Xc : option Point)
    : result (PubShare * option error) :=
  match Shared o with
  | None => Panic
  | Some sh =>
      let v := Mul (sV sh) U in
      let v := point_add v (Mul (sV sh) Xc) in
      Ok ({| I := Index sh; V := v |}, None)
  end.

(** ** [Start] *)

(** The request [rc] that [Start] builds, [u] being [o.U]. *)
Definition request (o : OCS) (u : Point) : Reencrypt :=
  {| rc_U := u; rc_Xc := Xc o;
     rc_VerificationData :=
       if 0 <? len (VerificationData o)
       then Some (VerificationData o) else None |}.

(** [errs] is the number of errors [Broadcast] reports. *)
Definition Start (o : OCS) (errs : nat) : OCS * option error :=
  match Shared o with
  | None => (o, Some "please initialize Shared first"%string)
  | Some _ =>
  match U o with
  | None => (o, Some "please initialize U first"%string)
  | Some u =>
      let rc := request o u in
      let rejected :=
        match Verify o with
        | Some verify => negb (verify rc)
        | None => false
        end in
      if rejected then
        (Done (send false o), Some "refused to reencrypt"%string)
      else
        let o := Broadcast rc o in
        if int_div (int_sub (Z.of_nat (nRoster (tni o))) 1) 3 <? Z.of_nat errs
        then (o, Some "too many nodes failed in broadcast"%string)
        else (o, None)
  end
  end.

(** ** [reencrypt], run by every node that receives the request

    [si] is the scalar picked from the random stream and [sendErr] what
    [SendToParent] returns.  [o.Done()] is deferred. *)
Definition reencrypt (o : OCS) (si : Scalar) (sendErr : option error)
    (r : structReencrypt) : result (OCS * option error) :=
  '(ui, err) ← getUI o (Some (sr_U r)) (Some (sr_Xc r));
  match err with
  | Some _ => Ok (Done o, None)
  | None =>
      let rejected :=
        match Verify o with
        | Some verify => negb (verify (sr_Reencrypt r))
        | None => false
        end in
      if rejected then
        Ok (Done (SendToParent refusal o), sendErr)
      else
        let uiHat := Mul si (Some (point_add (sr_U r) (sr_Xc r))) in
        let hiHat := Mul si None in
        let ei := hashPoints (V ui) uiHat hiHat in
        match Shared o with
        | None => Panic
        | Some sh =>
            let reply := {| Ui := Some ui; Ei := Some ei;
                            Fi := Some (scalar_add si (scalar_mul ei (sV sh))) |} in
            Ok (Done (SendToParent reply o), sendErr)
        end
  end.

(** ** [reencryptReply], run by the root for every reply *)

(** The proof check of one reply [r] of the loop over [o.replies]: the
    value of [e.Equal(r.Ei)]. *)
Definition checkProof (o : OCS) (r : ReencryptReply) : result bool :=
  u ← deref (U o);
  xc ← deref (Xc o);
  let W := point_add u xc in
  fi ← deref (Fi r);
  ei ← deref (Ei r);
  ui ← deref (Ui r);
  poly ← deref (Poly o);
  let ufi := Mul fi (Some W) in
  let uiei := Mul (scalar_neg ei) (Some (V ui)) in
  let uiHat := point_add ufi uiei in
  let gfi := Mul fi None in
  let gxi := poly (I ui) in
  let hiei := Mul (scalar_neg ei) (Some gxi) in
  let hiHat := point_add gfi hiei in
  let e := hashPoints (V ui) uiHat hiHat in
  Ok (scalar_equal e ei).

(** [us[i] = u] on a slice: an index out of range panics. *)
Definition storeUi (us : list (option PubShare)) (i : Z) (u : PubShare)
    : result (list (option PubShare)) :=
  if (0 <=? i) && (i <? len us)
  then Ok (<[Z.to_nat i := Some u]> us)
  else Panic.

(** [for _, r := range o.replies { ... }], threading [o.Uis]. *)
Fixpoint verifyReplies (o : OCS) (rs : list ReencryptReply)
    (us : list (option PubShare)) : result (list (option PubShare)) :=
  match rs with
  | [] => Ok us
  | r :: rs' =>
      ok ← checkProof o r;
      us' ← (if ok : bool then ui ← deref (Ui r); storeUi us (I ui) ui else Ok us);
      verifyReplies o rs' us'
  end.

Definition reencryptReply (o : OCS) (rr : ReencryptReply)
    : result (OCS * option error) :=
  match Ui rr with
  | None =>
      let o := set_Failures (int_add (Failures o) 1) o in
      if int_sub (Z.of_nat (nChildren (tni o))) (Threshold o) <=? Failures o
      then Ok (Done (send false o), None)
      else Ok (o, None)
  | Some _ =>
      let o := set_replies (replies o ++ [rr]) o in
      (* minus one to exclude the root *)
      if int_sub (Threshold o) 1 <=? len (replies o) then
        let o := set_Uis (replicate (nList (tni o)) None) o in
        '(u0, err) ← getUI o (U o) (Xc o);
        us ← storeUi (Uis o) 0 u0;
        let o := set_Uis us o in
        match err with
        | Some e => Ok (o, Some e)
        | None =>
            us ← verifyReplies o (replies o) (Uis o);
            Ok (Done (send true (set_Uis us o)), None)
        end
      else Ok (o, None)
  end.

(** ** A run at the root

    The handler is invoked once per incoming reply, in arrival order;
    once the instance has called [Done], onet drops the messages that are
    still addressed to it. *)
Definition deliver (o : OCS) (rr : ReencryptReply) : result OCS :=
  if isDone (tni o) then Ok o
  else '(o', _) ← reencryptReply o rr; Ok o'.

Fixpoint run (o : OCS) (rrs : list ReencryptReply) : result OCS :=
  match rrs with
  | [] => Ok o
  | rr :: rrs' => o' ← deliver o rr; run o' rrs'
  end.

(** The handler applied to every reply, whether [Done] was called or not. *)
Fixpoint handleAll (o : OCS) (rrs : list ReencryptReply) : result OCS :=
  match rrs with
  | [] => Ok o
  | rr :: rrs' => '(o', _) ← reencryptReply o rr; handleAll o' rrs'
  end.

(** The number of shares held by [o.Uis]. *)
Definition countShares (us : list (option PubShare)) : nat :=
  length (filter is_Some us).

(** A reply without a share is a refusal. *)
Definition isRefusal (rr : ReencryptReply) : bool :=
  match Ui rr with None => true | Some _ => false end.

Definition nRefusals (l : list ReencryptReply) : nat :=
  length (filter (fun rr => isRefusal rr = true) l).
Definition nShares (l : list ReencryptReply) : nat :=
  length (filter (fun rr => isRefusal rr = false) l).

(** The replies [l] hold enough share-carrying replies for the test
    [len(o.replies) >= o.Threshold-1] to succeed at some point. *)
Definition reachesQuorum (o : OCS) (l : list ReencryptReply) : Prop :=
  (1 <= nShares l)%nat /\
  int_sub (Threshold o) 1 <= len (replies o) + Z.of_nat (nShares l).

(** The replies [l] hold enough refusals for the test
    [o.Failures >= len(o.Children())-o.Threshold] to succeed at some point. *)
Definition reachesFailure (o : OCS) (l : list ReencryptReply) : Prop :=
  (1 <= nRefusals l)%nat /\
  int_sub (Z.of_nat (nChildren (tni o))) (Threshold o)
    <= Failures o + Z.of_nat (nRefusals l).

(** In the arrival order [l], the test that gives outcome [b] succeeds on
    a prefix on which the other test does not. *)
Definition passesFirst (o : OCS) (l : list ReencryptReply) (b : bool) : Prop :=
  exists k : nat,
    if b
    then reachesQuorum o (take k l) /\ ~ reachesFailure o (take k l)
    else reachesFailure o (take k l) /\ ~ reachesQuorum o (take k l).

(** What a run has published, how many shares it holds, and how many
    failures it has counted. *)
Definition published (r : result OCS) : option (list bool) :=
  match r with Ok o => Some (Reencrypted o) | Panic => None end.
Definition accepted (r : result OCS) : option nat :=
  match r with Ok o => Some (countShares (Uis o)) | Panic => None end.

(** The state a run ends in; the initial one if it panics. *)
Definition stateAfter (o : OCS) (l : list ReencryptReply) : OCS :=
  match run o l with Ok o' => o' | Panic => o end.

(** A reply the loop of [reencryptReply] goes through without a panic:
    it has its share and both scalars, and the index of a share whose
    proof passes lies within [Uis]. *)
Definition checkable (o : OCS) (r : ReencryptReply) : Prop :=
  exists ui e f, Ui r = Some ui /\ Ei r = Some e /\ Fi r = Some f /\
    (checkProof o r = Ok true -> 0 <= I ui < Z.of_nat (nList (tni o))).

(** An instance whose share, public polynomial and points are set, with
    a node list that is not empty, holding replies that can be checked. *)
Definition ready (o : OCS) : Prop :=
  is_Some (Shared o) /\ is_Some (Poly o) /\ is_Some (U o) /\ is_Some (Xc o) /\
  (0 < nList (tni o))%nat /\
  Forall (checkable o) (replies o).

(** The index a reply's share claims, if it carries one. *)
Definition shareIndex (r : ReencryptReply) : option Z := I <$> Ui r.

(** A reply whose proof passes the check and whose index lies within
    [Uis]. *)
Definition verified (o : OCS) (r : ReencryptReply) : Prop :=
  exists ui, Ui r = Some ui /\ checkProof o r = Ok true /\
             0 <= I ui < Z.of_nat (nList (tni o)).

End Protocol.

(** ** A small suite to run the protocol on

    The scalars are the field of five elements and the points its
    additive group, generated by one; a stand-in replaces SHA-256. *)

Module Toy.

Inductive F5 : Type := F5_0 | F5_1 | F5_2 | F5_3 | F5_4.

Definition to_Z (a : F5) : Z :=
  match a with F5_0 => 0 | F5_1 => 1 | F5_2 => 2 | F5_3 => 3 | F5_4 => 4 end.

Definition of_Z (z : Z) : F5 :=
  match z mod 5 with
  | 0 => F5_0 | 1 => F5_1 | 2 => F5_2 | 3 => F5_3 | _ => F5_4
  end.

Definition add (a b : F5) : F5 := of_Z (to_Z a + to_Z b).
Definition mul (a b : F5) : F5 := of_Z (to_Z a * to_Z b).
Definition neg (a : F5) : F5 := of_Z (- to_Z a).
Definition eqb (a b : F5) : bool := to_Z a =? to_Z b.

Definition marshal (a : F5) : list byte :=
  match a with
  | F5_0 => [x00] | F5_1 => [x01] | F5_2 => [x02] | F5_3 => [x03] | F5_4 => [x04]
  end.

Definition setbytes (bs : list byte) : F5 :=
  of_Z (fold_left (fun acc b => 2 * acc + Z.of_N (Byte.to_N b)) bs 0).

#[global] Instance suite : Suite := {|
  Scalar := F5; Point := F5;
  scalar_add := add; scalar_mul := mul; scalar_neg := neg;
  scalar_equal := eqb; scalar_setbytes := setbytes;
  point_null := F5_0; point_base := F5_1;
  point_add := add; point_mul := mul;
  point_marshal := marshal; sha256_sum := @rev byte;
|}.

(** The secret shares of the four nodes and the public polynomial. *)
Definition secret (i : Z) : F5 :=
  match i with 0 => F5_2 | 1 => F5_3 | 2 => F5_4 | 3 => F5_1 | _ => F5_0 end.

Definition poly (i : Z) : F5 := mul (secret i) F5_1.

Definition tree (roster children : nat) : TreeNodeInstance :=
  {| nRoster := roster; nChildren := children; nList := roster;
     broadcasts := []; toParent := []; isDone := false |}.

Definition encU : F5 := F5_3.
Definition clientXc : F5 := F5_4.

(** The root of a roster of [n] nodes with [n - 1] children. *)
Definition rootOf (n : nat) (verify : option VerifyRequest) : OCS :=
  configure (Some {| Index := 0; sV := secret 0 |}) (Some poly)
    (Some encU) (Some clientXc) [] verify (initOCS (tree n (n - 1))).

Definition root4 : OCS := rootOf 4 None.
Definition root10 : OCS := rootOf 10 None.

(** A leaf holding share [i]. *)
Definition leaf (i : Z) (verify : option VerifyRequest) : OCS :=
  configure (Some {| Index := i; sV := secret i |}) None None None [] verify
    (initOCS (tree 4 0)).

(** The request of [root4] as the nodes receive it. *)
Definition received : structReencrypt :=
  {| sr_U := encU; sr_Xc := clientXc; sr_VerificationData := None |}.

(** What node [o] sends to its parent on the request of [root4]. *)
Definition replyOf (o : OCS) (si : F5) : ReencryptReply :=
  match reencrypt o si None received with
  | Ok (o', _) => default refusal (last (toParent (tni o')))
  | Panic => refusal
  end.

Definition valid1 : ReencryptReply := replyOf (leaf 1 None) F5_2.
Definition valid2 : ReencryptReply := replyOf (leaf 2 None) F5_3.
Definition refused3 : ReencryptReply := replyOf (leaf 3 (Some (fun _ => false))) F5_1.

(** Replies whose proofs do not verify: the response of [valid1] and the
    challenge of [valid2] have been changed. *)
Definition forged1 : ReencryptReply :=
  {| Ui := Ui valid1; Ei := Ei valid1; Fi := Some F5_0 |}.
Definition forged2 : ReencryptReply :=
  {| Ui := Ui valid2; Ei := Some F5_4; Fi := Fi valid2 |}.

(** A root as [NewOCS] returns it, before the caller has set it up. *)
Definition bareRoot : OCS := initOCS (tree 4 3).

(** The reply of a node holding the share of index 7, outside the tree of
    four nodes. *)
Definition stray : ReencryptReply := replyOf (leaf 7 None) F5_1.

(** A root whose policy hook rejects every request. *)
Definition strictRoot : OCS := rootOf 4 (Some (fun _ => false)).

End Toy.

(** Closed comparisons of integers. *)
Ltac zcompare :=
  vm_compute; repeat split; first [reflexivity | discriminate].

(** * Properties *)

(** ** Machine integers *)

Lemma wrap_small (z : Z) : min_int <= z <= max_int -> wrap z = z.
Proof.
  unfold wrap, min_int, max_int. intros Hz.
  rewrite Z.mod_small; lia.
Qed.

Lemma newThreshold_floor (n : nat) :
  (1 <= n)%nat -> Z.of_nat n <= max_int ->
  newThreshold n = Z.of_nat n - (Z.of_nat n - 1) / 3.
Proof.
  intros Hn Hmax. unfold newThreshold, int_sub, int_div.
  assert (Hq : 0 <= (Z.of_nat n - 1) / 3 <= Z.of_nat n - 1).
  { split; [apply Z.div_pos; lia|].
    apply Z.div_le_upper_bound; lia. }
  unfold max_int in Hmax.
  rewrite (wrap_small (Z.of_nat n - 1)) by (unfold min_int, max_int; lia).
  rewrite Z.quot_div_nonneg by lia.
  rewrite (wrap_small ((Z.of_nat n - 1) / 3)) by (unfold min_int, max_int; lia).
  apply wrap_small. unfold min_int, max_int. lia.
Qed.

Section Facts.
Context {suite : Suite}.

(** C7: a protocol instance created for a roster of [n] nodes has
    threshold [n - floor((n-1)/3)]. *)
Theorem NewOCS_threshold (t : TreeNodeInstance) :
  (1 <= nRoster t)%nat -> Z.of_nat (nRoster t) <= max_int ->
  exists o, NewOCS t None = (Some o, None) /\
            Threshold o = Z.of_nat (nRoster t) - (Z.of_nat (nRoster t) - 1) / 3.
Proof.
  intros Hn Hmax. exists (initOCS t). split; [reflexivity|].
  simpl. by apply newThreshold_floor.
Qed.

(** *** [getUI] *)

Lemma getUI_ok (o : OCS) (sh : SharedSecret) (u xc : option Point) :
  Shared o = Some sh ->
  getUI o u xc =
    Ok ({| I := Index sh; V := point_add (Mul (sV sh) u) (Mul (sV sh) xc) |}, None).
Proof. intros Hsh. unfold getUI. by rewrite Hsh. Qed.

Lemma getUI_no_error (o : OCS) (u xc : option Point) (ui : PubShare)
    (err : option error) :
  getUI o u xc = Ok (ui, err) -> err = None.
Proof.
  unfold getUI. destruct (Shared o); [|discriminate].
  by intros [= _ <-].
Qed.

(** C10: [getUI] never returns an error, so a node whose secret share is
    set never takes the error branch of [reencrypt] and hands exactly one
    message to [SendToParent]: a refusal, or a share with its proof. *)
Theorem reencrypt_sends_one_reply (o : OCS) (sh : SharedSecret) (si : Scalar)
    (sendErr : option error) (r : structReencrypt) :
  Shared o = Some sh ->
  (forall u xc ui err, getUI o u xc = Ok (ui, err) -> err = None) /\
  exists reply,
    reencrypt o si sendErr r = Ok (Done (SendToParent reply o), sendErr) /\
    toParent (tni (Done (SendToParent reply o))) = toParent (tni o) ++ [reply] /\
    (reply = refusal \/
     exists ui e f, reply = {| Ui := Some ui; Ei := Some e; Fi := Some f |}).
Proof.
  intros Hsh. split; [apply getUI_no_error|].
  unfold reencrypt. rewrite (getUI_ok o sh) by done. simpl.
  destruct (match Verify o with
            | Some verify => negb (verify (sr_Reencrypt r)) | None => false end).
  - exists refusal. split_and!; [done..|by left].
  - rewrite Hsh. eexists. split_and!; [done..|]. right. by do 3 eexists.
Qed.

(** *** [Start] *)

(** C9: when the root's policy hook rejects the request, [Start] publishes
    [false], calls [Done] and hands nothing to [Broadcast]. *)
Theorem Start_rejected (o : OCS) (errs : nat) (sh : SharedSecret) (u : Point)
    (verify : VerifyRequest) :
  Shared o = Some sh -> U o = Some u ->
  Verify o = Some verify -> verify (request o u) = false ->
  exists o' err,
    Start o errs = (o', Some err) /\
    Reencrypted o' = Reencrypted o ++ [false] /\
    isDone (tni o') = true /\
    broadcasts (tni o') = broadcasts (tni o).
Proof.
  intros Hsh Hu Hv Hrej. unfold Start. rewrite Hsh, Hu, Hv, Hrej. simpl.
  by do 2 eexists.
Qed.

(** Without a hook, or when it accepts, the request is broadcast once. *)
Lemma Start_accepted (o : OCS) (errs : nat) (sh : SharedSecret) (u : Point) :
  Shared o = Some sh -> U o = Some u ->
  match Verify o with Some verify => verify (request o u) | None => true end = true ->
  exists err,
    Start o errs = (Broadcast (request o u) o, err) /\
    (err = None <-> (Z.of_nat errs <= int_div (int_sub (Z.of_nat (nRoster (tni o))) 1) 3)).
Proof.
  intros Hsh Hu Hv. unfold Start. rewrite Hsh, Hu.
  replace (match Verify o with Some verify => negb (verify (request o u))
           | None => false end) with false
    by (destruct (Verify o); [by rewrite Hv|done]).
  simpl.
  destruct (Z.ltb_spec (int_div (int_sub (Z.of_nat (nRoster (tni o))) 1) 3) (Z.of_nat errs)).
  - eexists. split; [done|]. split; [done|lia].
  - eexists. split; [done|]. split; [lia|done].
Qed.

End Facts.

(** ** The discrete-log-equality proof *)

Section Proofs.
Context {suite : Suite} {laws : SuiteLaws suite}.

(** The commitment is recovered from the response: [f*P - e*(x*P) = s*P]
    for [f = s + e*x]. *)
Lemma commitment_recovered (s e x : Scalar) (P : Point) :
  point_add (point_mul (scalar_add s (scalar_mul e x)) P)
            (point_mul (scalar_neg e) (point_mul x P))
  = point_mul s P.
Proof.
  rewrite point_mul_add_scalar, point_mul_mul, <- point_add_assoc.
  by rewrite point_mul_neg, point_add_null_r.
Qed.

Lemma scalar_equal_refl (a : Scalar) : scalar_equal a a = true.
Proof. by apply scalar_equal_eq. Qed.

Lemma checkProof_honest (o : OCS) (u xc : Point) (poly : Z -> Point) (i : Z)
    (x s : Scalar) :
  U o = Some u -> Xc o = Some xc -> Poly o = Some poly ->
  poly i = point_mul x point_base ->
  let W := point_add u xc in
  let e := hashPoints (point_mul x W) (point_mul s W) (point_mul s point_base) in
  checkProof o {| Ui := Some {| I := i; V := point_mul x W |};
                  Ei := Some e;
                  Fi := Some (scalar_add s (scalar_mul e x)) |} = Ok true.
Proof.
  intros Hu Hxc HP Hpoly W e. unfold checkProof. rewrite Hu, Hxc, HP. simpl.
  rewrite Hpoly. fold W. rewrite !commitment_recovered. fold e.
  by rewrite scalar_equal_refl.
Qed.

(** C8: a share [x*(U+Xc)] with the proof [e = Hash(ui || s*(U+Xc) || s*G)],
    [f = s + e*x] passes the root's check whenever the public polynomial
    gives [x*G] at the share's index. *)
Theorem honest_proof_accepted (o : OCS) (u xc : Point) (poly : Z -> Point)
    (i : Z) (x s : Scalar) :
  U o = Some u -> Xc o = Some xc -> Poly o = Some poly ->
  poly i = point_mul x point_base ->
  let W := point_add u xc in
  let ui := {| I := i; V := point_mul x W |} in
  let e := hashPoints (V ui) (point_mul s W) (point_mul s point_base) in
  let f := scalar_add s (scalar_mul e x) in
  let uiHat' := point_add (point_mul f W) (point_mul (scalar_neg e) (V ui)) in
  let hiHat' := point_add (point_mul f point_base)
                          (point_mul (scalar_neg e) (poly i)) in
  hashPoints (V ui) uiHat' hiHat' = e /\
  checkProof o {| Ui := Some ui; Ei := Some e; Fi := Some f |} = Ok true.
Proof.
  intros Hu Hxc HP Hpoly W ui e f uiHat' hiHat'. split.
  - unfold uiHat', hiHat', f. rewrite Hpoly. simpl.
    by rewrite !commitment_recovered.
  - by apply (checkProof_honest o u xc poly).
Qed.

(** X15: what a node sends on a request is accepted by the root that
    issued the request, when the public polynomial gives the node's
    public share at its index. *)
Lemma reencrypt_reply_accepted (node root : OCS) (sh : SharedSecret)
    (si : Scalar) (sendErr : option error) (u : Point) (poly : Z -> Point)
    (r : structReencrypt) :
  Shared node = Some sh ->
  match Verify node with Some v => v (request root u) | None => true end = true ->
  U root = Some u ->
  sr_Reencrypt r = request root u ->
  Poly root = Some poly ->
  poly (Index sh) = point_mul (sV sh) point_base ->
  exists reply,
    reencrypt node si sendErr r
      = Ok (Done (SendToParent reply node), sendErr) /\
    checkProof root reply = Ok true.
Proof.
  intros Hsh Hv Hu Hr HP Hpoly. unfold reencrypt.
  rewrite (getUI_ok node sh) by done. simpl. rewrite Hr.
  replace (match Verify node with Some verify => negb (verify (request root u))
           | None => false end) with false
    by (destruct (Verify node); [by rewrite Hv|done]).
  rewrite Hsh. eexists. split; [done|].
  assert (HU : sr_U r = u) by (by apply (f_equal rc_U) in Hr).
  assert (HX : Xc root = Some (sr_Xc r))
    by (apply (f_equal rc_Xc) in Hr; by simpl in Hr).
  rewrite <- point_mul_add_point, HU.
  by apply (checkProof_honest root u (sr_Xc r) poly).
Qed.

End Proofs.

(** ** The root's reply handler *)

Section RootHandler.
Context {suite : Suite}.

Lemma app_singleton_neq {A} (l : list A) (x : A) : l ++ [x] <> l.
Proof.
  intros H. apply (f_equal length) in H. rewrite length_app in H. simpl in H. lia.
Qed.

Lemma storeUi_ok (us us' : list (option PubShare)) (i : Z) (u : PubShare) :
  storeUi us i u = Ok us' ->
  0 <= i < len us /\ us' = <[Z.to_nat i := Some u]> us.
Proof.
  unfold storeUi.
  destruct (Z.leb_spec 0 i), (Z.ltb_spec i (len us)); simpl; try discriminate.
  intros [= <-]. split; [lia|done].
Qed.

Lemma checkProof_ext (o o' : OCS) (r : ReencryptReply) :
  U o = U o' -> Xc o = Xc o' -> Poly o = Poly o' ->
  checkProof o r = checkProof o' r.
Proof. unfold checkProof. by intros -> -> ->. Qed.

Lemma verifyReplies_ext (o o' : OCS) (rs : list ReencryptReply)
    (us : list (option PubShare)) :
  U o = U o' -> Xc o = Xc o' -> Poly o = Poly o' ->
  verifyReplies o rs us = verifyReplies o' rs us.
Proof.
  intros HU HX HP. revert us.
  induction rs as [|r rs IH]; intros us; [done|].
  simpl. rewrite (checkProof_ext o o' r) by done.
  destruct (checkProof o' r) as [ok|]; [|done]. simpl.
  destruct (if ok then _ else _); [|done]. simpl. apply IH.
Qed.

Lemma verifyReplies_app (o : OCS) (rs1 rs2 : list ReencryptReply)
    (us : list (option PubShare)) :
  verifyReplies o (rs1 ++ rs2) us
  = us1 ← verifyReplies o rs1 us; verifyReplies o rs2 us1.
Proof.
  revert us. induction rs1 as [|r rs1 IH]; intros us; [done|].
  simpl. destruct (checkProof o r) as [ok|]; [|done]. simpl.
  destruct (if ok then _ else _); [|done]. simpl. apply IH.
Qed.

(** A refusal only touches [Failures], and may end the run. *)
Lemma reencryptReply_refusal (o : OCS) (rr : ReencryptReply) :
  Ui rr = None ->
  reencryptReply o rr =
    Ok (let o1 := set_Failures (int_add (Failures o) 1) o in
        if int_sub (Z.of_nat (nChildren (tni o))) (Threshold o)
             <=? int_add (Failures o) 1
        then Done (send false o1) else o1, None).
Proof.
  intros Hui. unfold reencryptReply. rewrite Hui. simpl.
  by destruct (_ <=? _).
Qed.

(** A reply with a share is appended to [replies]; once there are
    [Threshold - 1] of them, all are checked and [true] is published. *)
Lemma reencryptReply_share (o : OCS) (rr : ReencryptReply) (ui : PubShare) :
  Ui rr = Some ui ->
  reencryptReply o rr =
    let o1 := set_replies (replies o ++ [rr]) o in
    if int_sub (Threshold o) 1 <=? len (replies o ++ [rr]) then
      '(u0, _) ← getUI o (U o) (Xc o);
      us0 ← storeUi (replicate (nList (tni o)) None) 0 u0;
      us ← verifyReplies o (replies o ++ [rr]) us0;
      Ok (Done (send true (set_Uis us o1)), None)
    else Ok (o1, None).
Proof.
  intros Hui. unfold reencryptReply. rewrite Hui. simpl.
  destruct (_ <=? _); [|done].
  unfold getUI. simpl. destruct (Shared o) as [sh|]; [|done]. simpl.
  destruct (storeUi _ 0 _) as [us0|]; [|done]. simpl.
  rewrite (verifyReplies_ext _ o) by done.
  by destruct (verifyReplies o _ us0).
Qed.

(** *** The loop over the replies *)

Lemma verifyReplies_length (o : OCS) (rs : list ReencryptReply)
    (us us' : list (option PubShare)) :
  verifyReplies o rs us = Ok us' -> length us' = length us.
Proof.
  revert us. induction rs as [|r rs IH]; intros us; simpl.
  - by intros [= <-].
  - destruct (checkProof o r) as [[]|]; simpl; [| |done].
    + destruct (Ui r) as [ui|]; simpl; [|done].
      destruct (storeUi us (I ui) ui) as [us1|] eqn:Hst; simpl; [|done].
      apply storeUi_ok in Hst as [_ ->]. intros H%IH.
      by rewrite length_insert in H.
    + apply IH.
Qed.

(** Whatever the loop writes into a slot is the share of a reply whose
    proof it has just checked, stored at the share's index. *)
Lemma verifyReplies_entries (o : OCS) (rs : list ReencryptReply)
    (us us' : list (option PubShare)) :
  verifyReplies o rs us = Ok us' ->
  forall (i : nat) (u : PubShare), us' !! i = Some (Some u) ->
    us !! i = Some (Some u) \/
    exists r, r ∈ rs /\ Ui r = Some u /\ I u = Z.of_nat i /\
              checkProof o r = Ok true.
Proof.
  revert us. induction rs as [|r rs IH]; intros us; simpl.
  - intros [= <-] i u Hi. by left.
  - destruct (checkProof o r) as [[]|] eqn:Hck; simpl; [| |done].
    + destruct (Ui r) as [ui|] eqn:Hui; simpl; [|done].
      destruct (storeUi us (I ui) ui) as [us1|] eqn:Hst; simpl; [|done].
      apply storeUi_ok in Hst as [Hrange ->].
      intros Hrs i u Hi.
      destruct (IH _ Hrs i u Hi) as [Hold|(r' & Hin & H')].
      * destruct (decide (Z.to_nat (I ui) = i)) as [<-|Hne].
        -- rewrite list_lookup_insert_eq in Hold
             by (unfold len in Hrange; lia).
           injection Hold as <-. right. exists r.
           split_and!; [left|done|lia|done].
        -- rewrite list_lookup_insert_ne in Hold by done. by left.
      * right. exists r'. split; [by right|done].
    + intros Hrs i u Hi.
      destruct (IH _ Hrs i u Hi) as [Hold|(r' & Hin & H')]; [by left|].
      right. exists r'. split; [by right|done].
Qed.

Lemma countShares_cons (x : option PubShare) (us : list (option PubShare)) :
  countShares (x :: us)
  = (match x with Some _ => S (countShares us) | None => countShares us end).
Proof.
  unfold countShares. rewrite filter_cons.
  destruct x as [v|]; simpl.
  - by destruct (decide (is_Some (Some v))) as [_|[]]; [|eexists].
  - by destruct (decide (is_Some (@None PubShare))) as [[? [=]]|_].
Qed.

(** Writing into a slot that already holds a share overwrites it. *)
Lemma countShares_overwrite (us : list (option PubShare)) (i : nat)
    (u v : PubShare) :
  us !! i = Some (Some v) ->
  countShares (<[i := Some u]> us) = countShares us.
Proof.
  revert i. induction us as [|x us IH]; intros i Hi; [done|].
  destruct i as [|i]; simpl in *.
  - injection Hi as ->. by rewrite !countShares_cons.
  - rewrite !countShares_cons, (IH i) by done. done.
Qed.

(** Writing into an empty slot adds a share. *)
Lemma countShares_fill (us : list (option PubShare)) (i : nat) (u : PubShare) :
  us !! i = Some None ->
  countShares (<[i := Some u]> us) = S (countShares us).
Proof.
  revert i. induction us as [|x us IH]; intros i Hi; [done|].
  destruct i as [|i]; simpl in *.
  - injection Hi as ->. by rewrite !countShares_cons.
  - rewrite !countShares_cons, (IH i) by done. by destruct x.
Qed.

End RootHandler.

(** ** What the handler publishes, counts and accepts *)

Section Quorum.
Context {suite : Suite}.

Lemma checkProof_has_share (o : OCS) (r : ReencryptReply) (b : bool) :
  checkProof o r = Ok b -> is_Some (Ui r).
Proof.
  unfold checkProof.
  destruct (U o), (Xc o), (Fi r), (Ei r), (Ui r); simpl; try discriminate.
  by eexists.
Qed.

(** At a root whose [Poly] or [Xc] was left nil no proof can be checked. *)
Lemma checkProof_nil (o : OCS) (r : ReencryptReply) :
  Poly o = None \/ Xc o = None -> checkProof o r = Panic.
Proof.
  unfold checkProof. intros [H|H]; rewrite H;
    destruct (U o), (Xc o), (Fi r), (Ei r), (Ui r); done.
Qed.


(** C1, as the code has it: [true] is published only by a reply that
    carries a share and brings the number of such replies, verified or
    not, to [Threshold - 1]; every share then held by [Uis] is the root's
    own, in slot 0, or the share of a reply whose proof passed the check,
    in the slot of its index. *)
Theorem true_only_on_reply_quorum (o : OCS) (rr : ReencryptReply) (o' : OCS)
    (err : option error) :
  reencryptReply o rr = Ok (o', err) ->
  Reencrypted o' = Reencrypted o ++ [true] ->
  is_Some (Ui rr) /\
  replies o' = replies o ++ [rr] /\
  int_sub (Threshold o) 1 <= len (replies o') /\
  forall (i : nat) (u : PubShare), Uis o' !! i = Some (Some u) ->
    (i = 0%nat /\ getUI o (U o) (Xc o) = Ok (u, None)) \/
    (exists r, r ∈ replies o' /\ Ui r = Some u /\ I u = Z.of_nat i /\
               checkProof o r = Ok true).
Proof.
  destruct (Ui rr) as [ui|] eqn:Hui.
  - rewrite (reencryptReply_share o rr ui Hui). simpl.
    destruct (Z.leb_spec (int_sub (Threshold o) 1) (len (replies o ++ [rr])))
      as [Hq|Hq].
    + destruct (getUI o (U o) (Xc o)) as [[u0 e0]|] eqn:Hget; [|done].
      pose proof (getUI_no_error _ _ _ _ _ Hget) as ->. simpl.
      destruct (storeUi _ 0 u0) as [us0|] eqn:Hst; [|done]. simpl.
      destruct (verifyReplies o _ us0) as [us|] eqn:Hrs; [|done]. simpl.
      intros [= <- <-] _. simpl. split_and!; [by eexists|done|done|].
      intros i u Hi.
      destruct (verifyReplies_entries _ _ _ _ Hrs i u Hi) as [Hold|Hnew];
        [left|by right].
      apply storeUi_ok in Hst as [_ ->]. simpl in Hold.
      destruct i as [|i].
      * destruct (nList (tni o)); simpl in Hold; [done|].
        by injection Hold as ->.
      * rewrite list_lookup_insert_ne in Hold by done.
        apply lookup_replicate in Hold as [[=] _].
    + intros [= <- <-]. simpl. intros H. symmetry in H.
      by apply app_singleton_neq in H.
  - rewrite (reencryptReply_refusal o rr Hui). simpl.
    destruct (_ <=? _); intros [= <- <-]; simpl; intros H.
    + by apply app_inv_head in H.
    + symmetry in H. by apply app_singleton_neq in H.
Qed.

(** C4, as the code has it: a reply whose proof fails the check never
    changes [Failures], never publishes [false], and is appended to
    [replies], where it counts towards the [Threshold - 1] replies;
    when it completes them [true] is published, and [Uis] is what the
    loop computes from the earlier replies alone. *)
Theorem invalid_reply_effect (o : OCS) (rr : ReencryptReply) (o' : OCS)
    (err : option error) :
  checkProof o rr = Ok false ->
  reencryptReply o rr = Ok (o', err) ->
  Failures o' = Failures o /\
  replies o' = replies o ++ [rr] /\
  (len (replies o') < int_sub (Threshold o) 1 ->
     Reencrypted o' = Reencrypted o /\ isDone (tni o') = isDone (tni o) /\
     Uis o' = Uis o) /\
  (int_sub (Threshold o) 1 <= len (replies o') ->
     Reencrypted o' = Reencrypted o ++ [true] /\ isDone (tni o') = true /\
     exists u0 us0,
       getUI o (U o) (Xc o) = Ok (u0, None) /\
       storeUi (replicate (nList (tni o)) None) 0 u0 = Ok us0 /\
       verifyReplies o (replies o) us0 = Ok (Uis o')).
Proof.
  intros Hck. destruct (checkProof_has_share _ _ _ Hck) as [ui Hui].
  rewrite (reencryptReply_share o rr ui Hui). simpl.
  destruct (Z.leb_spec (int_sub (Threshold o) 1) (len (replies o ++ [rr])))
    as [Hq|Hq].
  - destruct (getUI o (U o) (Xc o)) as [[u0 e0]|] eqn:Hget; [|done].
    pose proof (getUI_no_error _ _ _ _ _ Hget) as ->. simpl.
    destruct (storeUi _ 0 u0) as [us0|] eqn:Hst; [|done]. simpl.
    rewrite verifyReplies_app.
    destruct (verifyReplies o (replies o) us0) as [us1|] eqn:Hrs; [|done].
    simpl. rewrite Hck. simpl.
    intros [= <- <-]. simpl. split_and!; [done|done|lia|].
    intros _. split_and!; [done|done|]. by exists u0, us0.
  - intros [= <- <-]. simpl. split_and!; [done|done|done|lia].
Qed.

(** C6, as the code has it: a reply for an index whose slot already holds
    a share does not add a share to [Uis]: when its proof passes, the
    slot is overwritten, the other slots and the number of shares are
    unchanged.  The reply is still appended to [replies], whose length
    is what the quorum test reads. *)
Theorem duplicate_index_overwrites (o : OCS) (rr : ReencryptReply)
    (ui v : PubShare) (us us' : list (option PubShare)) :
  Ui rr = Some ui ->
  0 <= I ui ->
  us !! Z.to_nat (I ui) = Some (Some v) ->
  verifyReplies o [rr] us = Ok us' ->
  countShares us' = countShares us /\
  length us' = length us /\
  (forall i : nat, i <> Z.to_nat (I ui) -> us' !! i = us !! i) /\
  (checkProof o rr = Ok true -> us' !! Z.to_nat (I ui) = Some (Some ui)) /\
  (forall o' err, reencryptReply o rr = Ok (o', err) ->
     replies o' = replies o ++ [rr] /\ len (replies o') = len (replies o) + 1).
Proof.
  intros Hui Hpos Hslot Hrs.
  assert (Hlen : length us' = length us) by by eapply verifyReplies_length.
  assert (Hreplies : forall o' err, reencryptReply o rr = Ok (o', err) ->
     replies o' = replies o ++ [rr] /\ len (replies o') = len (replies o) + 1).
  { intros o' err. rewrite (reencryptReply_share o rr ui Hui). simpl.
    assert (Hl : len (replies o ++ [rr]) = len (replies o) + 1)
      by (unfold len; rewrite length_app; simpl; lia).
    destruct (_ <=? _).
    - destruct (getUI _ _ _) as [[u0 e0]|]; [|done]. simpl.
      destruct (storeUi _ 0 u0) as [us0|]; [|done]. simpl.
      destruct (verifyReplies o _ us0); [|done]. simpl.
      by intros [= <- <-].
    - by intros [= <- <-]. }
  simpl in Hrs. destruct (checkProof o rr) as [[]|]; [| |done]; simpl in Hrs.
  - rewrite Hui in Hrs. simpl in Hrs.
    destruct (storeUi us (I ui) ui) as [us1|] eqn:Hst; [|done].
    simpl in Hrs. injection Hrs as <-.
    apply storeUi_ok in Hst as [Hrange ->].
    split_and!; [by eapply countShares_overwrite|done| | |done].
    + intros i Hi. by rewrite list_lookup_insert_ne.
    + intros _. apply list_lookup_insert_eq. unfold len in Hrange. lia.
  - injection Hrs as <-. split_and!; done.
Qed.


End Quorum.

(** ** Runs *)

Section Runs.
Context {suite : Suite}.

Lemma run_done (o : OCS) (l : list ReencryptReply) :
  isDone (tni o) = true -> run o l = Ok o.
Proof.
  intros Hd. induction l as [|rr l IH]; [done|].
  simpl. unfold deliver. rewrite Hd. simpl. apply IH.
Qed.

Lemma nRefusals_cons (rr : ReencryptReply) (l : list ReencryptReply) :
  nRefusals (rr :: l)
  = (if isRefusal rr then S (nRefusals l) else nRefusals l).
Proof.
  unfold nRefusals. rewrite filter_cons.
  destruct (isRefusal rr); by case_decide.
Qed.

Lemma nShares_cons (rr : ReencryptReply) (l : list ReencryptReply) :
  nShares (rr :: l)
  = (if isRefusal rr then nShares l else S (nShares l)).
Proof.
  unfold nShares. rewrite filter_cons.
  destruct (isRefusal rr); by case_decide.
Qed.

Lemma nRefusals_perm (l1 l2 : list ReencryptReply) :
  l1 ≡ₚ l2 -> nRefusals l1 = nRefusals l2.
Proof. intros H. unfold nRefusals. by rewrite H. Qed.

Lemma nShares_perm (l1 l2 : list ReencryptReply) :
  l1 ≡ₚ l2 -> nShares l1 = nShares l2.
Proof. intros H. unfold nShares. by rewrite H. Qed.

(** One delivery to a running instance. *)
Lemma deliver_step (o : OCS) (rr : ReencryptReply) (o' : OCS) :
  isDone (tni o) = false ->
  deliver o rr = Ok o' ->
  Threshold o' = Threshold o /\ nChildren (tni o') = nChildren (tni o) /\
  if isRefusal rr then
    Failures o' = int_add (Failures o) 1 /\ replies o' = replies o /\
    if int_sub (Z.of_nat (nChildren (tni o))) (Threshold o)
         <=? int_add (Failures o) 1
    then isDone (tni o') = true /\ Reencrypted o' = Reencrypted o ++ [false]
    else isDone (tni o') = false /\ Reencrypted o' = Reencrypted o
  else
    Failures o' = Failures o /\ replies o' = replies o ++ [rr] /\
    if int_sub (Threshold o) 1 <=? len (replies o) + 1
    then isDone (tni o') = true /\ Reencrypted o' = Reencrypted o ++ [true]
    else isDone (tni o') = false /\ Reencrypted o' = Reencrypted o.
Proof.
  intros Hrun. unfold deliver, isRefusal. rewrite Hrun.
  destruct (Ui rr) as [ui|] eqn:Hui.
  - rewrite (reencryptReply_share o rr ui Hui). simpl.
    replace (len (replies o ++ [rr])) with (len (replies o) + 1)
      by (unfold len; rewrite length_app; simpl; lia).
    destruct (_ <=? _).
    + destruct (getUI _ _ _) as [[u0 e0]|]; [|done]. simpl.
      destruct (storeUi _ 0 u0) as [us0|]; [|done]. simpl.
      destruct (verifyReplies o _ us0); [|done]. simpl.
      by intros [= <-].
    + by intros [= <-].
  - rewrite (reencryptReply_refusal o rr Hui). simpl.
    by destruct (_ <=? _); intros [= <-].
Qed.

(** What a run publishes is decided by which of the two tests succeeds
    first. *)
Lemma run_outcome (l : list ReencryptReply) (o o' : OCS) :
  isDone (tni o) = false ->
  min_int <= Failures o -> Failures o + len l <= max_int ->
  run o l = Ok o' ->
  (Reencrypted o' = Reencrypted o /\
   ~ reachesQuorum o l /\ ~ reachesFailure o l) \/
  (Reencrypted o' = Reencrypted o ++ [true] /\ reachesQuorum o l) \/
  (Reencrypted o' = Reencrypted o ++ [false] /\ reachesFailure o l).
Proof.
  revert o. induction l as [|rr l IH]; intros o Hrun Hmin Hmax; simpl.
  - intros [= <-]. left. unfold reachesQuorum, reachesFailure.
    unfold nShares, nRefusals. simpl. split_and!; [done|lia|lia].
  - destruct (deliver o rr) as [o1|] eqn:Hd; [|done]. simpl. intros Hrest.
    assert (Hlen : len (rr :: l) = len l + 1) by (unfold len; simpl; lia).
    assert (Hl0 : 0 <= len l) by (unfold len; lia).
    pose proof (deliver_step o rr o1 Hrun Hd) as (HT & HC & Hstep).
    unfold reachesQuorum, reachesFailure.
    rewrite nShares_cons, nRefusals_cons.
    destruct (isRefusal rr).
    + destruct Hstep as (HF & HR & Hstep).
      assert (HF' : Failures o1 = Failures o + 1)
        by (rewrite HF; apply wrap_small; lia).
      destruct (Z.leb_spec
                  (int_sub (Z.of_nat (nChildren (tni o))) (Threshold o))
                  (int_add (Failures o) 1)) as [Hq|Hq];
        destruct Hstep as [Hdone HRe].
      * rewrite (run_done o1 l Hdone) in Hrest. injection Hrest as <-.
        right. right. split; [done|]. rewrite <- HF, HF' in Hq. lia.
      * rewrite <- HF, HF' in Hq.
        destruct (IH o1 Hdone ltac:(lia) ltac:(lia) Hrest)
          as [(H1 & H2 & H3)|[(H1 & H2)|(H1 & H2)]];
          unfold reachesQuorum, reachesFailure in *;
          rewrite ?HT, ?HC, ?HR, ?HF', ?HRe in *.
        -- left. split_and!; [done|done|lia].
        -- right. left. done.
        -- right. right. split; [done|lia].
    + destruct Hstep as (HF & HR & Hstep).
      assert (Hlr : len (replies o1) = len (replies o) + 1)
        by (rewrite HR; unfold len; rewrite length_app; simpl; lia).
      destruct (Z.leb_spec (int_sub (Threshold o) 1) (len (replies o) + 1))
        as [Hq|Hq]; destruct Hstep as [Hdone HRe].
      * rewrite (run_done o1 l Hdone) in Hrest. injection Hrest as <-.
        right. left. split; [done|]. lia.
      * destruct (IH o1 Hdone ltac:(lia) ltac:(lia) Hrest)
          as [(H1 & H2 & H3)|[(H1 & H2)|(H1 & H2)]];
          unfold reachesQuorum, reachesFailure in *;
          rewrite ?HT, ?HC, ?Hlr, ?HF, ?HRe in *.
        -- left. split_and!; [done|lia|done].
        -- right. left. split; [done|lia].
        -- right. right. done.
Qed.

(** *** Runs return *)

Lemma checkable_ext (o o' : OCS) (r : ReencryptReply) :
  U o = U o' -> Xc o = Xc o' -> Poly o = Poly o' ->
  nList (tni o) = nList (tni o') ->
  checkable o r -> checkable o' r.
Proof.
  intros HU HX HP HN (ui & e & f & H1 & H2 & H3 & H4).
  exists ui, e, f. split_and!; [done..|].
  rewrite <- (checkProof_ext o o') by done. by rewrite <- HN.
Qed.

Lemma checkProof_total (o : OCS) (r : ReencryptReply) :
  is_Some (U o) -> is_Some (Xc o) -> is_Some (Poly o) ->
  checkable o r -> exists b, checkProof o r = Ok b.
Proof.
  intros [u Hu] [xc Hxc] [poly HP] (ui & e & f & H1 & H2 & H3 & _).
  unfold checkProof. rewrite Hu, Hxc, HP, H1, H2, H3. simpl. by eexists.
Qed.

Lemma verifyReplies_total (o : OCS) (rs : list ReencryptReply)
    (us : list (option PubShare)) :
  is_Some (U o) -> is_Some (Xc o) -> is_Some (Poly o) ->
  Forall (checkable o) rs ->
  length us = nList (tni o) ->
  exists us', verifyReplies o rs us = Ok us'.
Proof.
  intros HU HX HP Hrs. revert us.
  induction Hrs as [|r rs Hr Hrs IH]; intros us Hlen; simpl; [by eexists|].
  destruct (checkProof_total o r HU HX HP Hr) as [b Hb]. rewrite Hb. simpl.
  destruct b; [|by apply IH].
  destruct Hr as (ui & e & f & H1 & _ & _ & Hrange). rewrite H1. simpl.
  specialize (Hrange Hb). unfold storeUi, len. rewrite Hlen.
  destruct (Z.leb_spec 0 (I ui)); [|lia].
  destruct (Z.ltb_spec (I ui) (Z.of_nat (nList (tni o)))); [|lia].
  simpl. apply IH. by rewrite length_insert.
Qed.

Lemma reencryptReply_total (o : OCS) (rr : ReencryptReply) :
  ready o -> Ui rr = None \/ checkable o rr ->
  exists o' err, reencryptReply o rr = Ok (o', err) /\ ready o'.
Proof.
  intros ([sh Hsh] & HP & HU & HX & HN & Hrs) [Hui|Hck].
  - rewrite (reencryptReply_refusal o rr Hui). simpl.
    destruct (_ <=? _); do 2 eexists; (split; [done|]);
      by split_and!; [eexists|..].
  - pose proof Hck as (ui & _ & _ & Hui & _).
    rewrite (reencryptReply_share o rr ui Hui). simpl.
    assert (Hall : Forall (checkable o) (replies o ++ [rr]))
      by (apply Forall_app; split; [done|by constructor]).
    destruct (_ <=? _).
    + rewrite (getUI_ok o sh) by done. simpl.
      destruct (storeUi (replicate (nList (tni o)) None) 0 _) as [us0|] eqn:Hst.
      2:{ unfold storeUi, len in Hst. rewrite length_replicate in Hst.
          destruct (Z.ltb_spec 0 (Z.of_nat (nList (tni o)))); [done|lia]. }
      simpl. apply storeUi_ok in Hst as [_ Hus0].
      destruct (verifyReplies_total o (replies o ++ [rr]) us0 HU HX HP Hall)
        as [us Hus];
        [by rewrite Hus0, length_insert, length_replicate|].
      rewrite Hus. simpl. do 2 eexists. split; [done|].
      split_and!; simpl; [by eexists|done..|].
      eapply Forall_impl; [exact Hall|]. intros r. by apply checkable_ext.
    + do 2 eexists. split; [done|].
      split_and!; simpl; [by eexists|done..|].
      eapply Forall_impl; [exact Hall|]. intros r. by apply checkable_ext.
Qed.

Lemma reencryptReply_params (o : OCS) (rr : ReencryptReply) (o' : OCS)
    (err : option error) :
  reencryptReply o rr = Ok (o', err) ->
  U o' = U o /\ Xc o' = Xc o /\ Poly o' = Poly o /\
  nList (tni o') = nList (tni o).
Proof.
  destruct (Ui rr) as [ui|] eqn:Hui.
  - rewrite (reencryptReply_share o rr ui Hui). simpl.
    destruct (_ <=? _).
    + destruct (getUI _ _ _) as [[u0 e0]|]; [|done]. simpl.
      destruct (storeUi _ 0 u0) as [us0|]; [|done]. simpl.
      destruct (verifyReplies o _ us0); [|done]. simpl.
      by intros [= <- <-].
    + by intros [= <- <-].
  - rewrite (reencryptReply_refusal o rr Hui). simpl.
    by destruct (_ <=? _); intros [= <- <-].
Qed.

(** A run of an instance that is [ready], over replies that are refusals
    or can be checked, returns. *)
Lemma run_returns (l : list ReencryptReply) (o : OCS) :
  ready o ->
  Forall (fun rr => Ui rr = None \/ checkable o rr) l ->
  exists o', run o l = Ok o'.
Proof.
  revert o. induction l as [|rr l IH]; intros o Hready Hl; simpl;
    [by eexists|].
  apply Forall_cons in Hl as [Hrr Hl].
  unfold deliver. destruct (isDone (tni o)) eqn:Hd; simpl.
  - apply IH; done.
  - destruct (reencryptReply_total o rr Hready Hrr) as (o1 & err & H1 & Hready1).
    rewrite H1. simpl. apply IH; [done|].
    destruct (reencryptReply_params _ _ _ _ H1) as (HU & HX & HP & HN).
    eapply Forall_impl; [exact Hl|]. intros r [Hr|Hr]; [by left|right].
    by apply (checkable_ext o o1).
Qed.

(** X14: a run does not panic when the root's [Shared], [Poly], [U] and
    [Xc] are set, its node list is not empty, and every reply is a refusal
    or can be checked. *)
Theorem run_total (l : list ReencryptReply) (o : OCS) :
  ready o ->
  Forall (fun rr => Ui rr = None \/ checkable o rr) l ->
  exists o', run o l = Ok o'.
Proof. apply run_returns. Qed.

(** *** The first test to succeed decides *)

Lemma run_app (o : OCS) (l1 l2 : list ReencryptReply) :
  run o (l1 ++ l2) = o1 ← run o l1; run o1 l2.
Proof.
  revert o. induction l1 as [|rr l1 IH]; intros o; simpl; [done|].
  destruct (deliver o rr); simpl; [apply IH|done].
Qed.

(** A run that is still open has published nothing. *)
Lemma run_open (l : list ReencryptReply) (o o' : OCS) :
  isDone (tni o) = false -> run o l = Ok o' ->
  isDone (tni o') = false -> Reencrypted o' = Reencrypted o.
Proof.
  revert o. induction l as [|rr l IH]; intros o Hrun; simpl.
  - by intros [= <-].
  - destruct (deliver o rr) as [o1|] eqn:Hd; [|done]. simpl.
    intros Hrest Hopen.
    pose proof (deliver_step o rr o1 Hrun Hd) as (_ & _ & Hstep).
    destruct (isDone (tni o1)) eqn:Hd1.
    + rewrite (run_done o1 l Hd1) in Hrest. injection Hrest as <-. congruence.
    + rewrite (IH o1 Hd1 Hrest Hopen).
      destruct (isRefusal rr); destruct Hstep as (_ & _ & Hstep);
        destruct (_ <=? _); destruct Hstep as [Hd' HR]; congruence.
Qed.

Lemma run_first (o : OCS) (l : list ReencryptReply) (o' : OCS) (b : bool) :
  isDone (tni o) = false ->
  min_int <= Failures o -> Failures o + len l <= max_int ->
  run o l = Ok o' ->
  passesFirst o l b -> Reencrypted o' = Reencrypted o ++ [b].
Proof.
  intros Hrun Hmin Hmax Hr [k Hk].
  rewrite <- (take_drop k l), run_app in Hr.
  destruct (run o (take k l)) as [o1|] eqn:Hpre; [|done]. simpl in Hr.
  assert (Hlen : len (take k l) <= len l)
    by (unfold len; rewrite length_take; lia).
  pose proof (run_outcome (take k l) o o1 Hrun Hmin ltac:(lia) Hpre) as Hout.
  assert (H1 : Reencrypted o1 = Reencrypted o ++ [b]).
  { destruct b; destruct Hk as [Hyes Hno];
      destruct Hout as [(_ & ? & ?)|[(? & ?)|(? & ?)]]; done || tauto. }
  destruct (isDone (tni o1)) eqn:Hd1.
  - rewrite (run_done o1 _ Hd1) in Hr. by injection Hr as <-.
  - pose proof (run_open _ _ _ Hrun Hpre Hd1) as H2. rewrite H2 in H1.
    symmetry in H1. by apply app_singleton_neq in H1.
Qed.

Lemma nShares_snoc (l : list ReencryptReply) (x : ReencryptReply) :
  nShares (l ++ [x]) = (if isRefusal x then nShares l else S (nShares l)).
Proof.
  unfold nShares. rewrite filter_app, length_app.
  fold (nShares [x]). rewrite nShares_cons. unfold nShares. simpl.
  destruct (isRefusal x); lia.
Qed.

Lemma nRefusals_snoc (l : list ReencryptReply) (x : ReencryptReply) :
  nRefusals (l ++ [x]) = (if isRefusal x then S (nRefusals l) else nRefusals l).
Proof.
  unfold nRefusals. rewrite filter_app, length_app.
  fold (nRefusals [x]). rewrite nRefusals_cons. unfold nRefusals. simpl.
  destruct (isRefusal x); lia.
Qed.

(** Each reply feeds one test only, so when a test can be passed, one of
    the two is passed first. *)
Lemma passesFirst_exists (o : OCS) (l : list ReencryptReply) :
  reachesQuorum o l \/ reachesFailure o l ->
  exists b (k : nat), (k <= length l)%nat /\
    if b : bool
    then reachesQuorum o (take k l) /\ ~ reachesFailure o (take k l)
    else reachesFailure o (take k l) /\ ~ reachesQuorum o (take k l).
Proof.
  induction l as [|x l IH] using rev_ind.
  - unfold reachesQuorum, reachesFailure, nShares, nRefusals. simpl.
    intros [[? _]|[? _]]; lia.
  - intros Hsome.
    assert (Hprev : (reachesQuorum o l \/ reachesFailure o l) \/
                    (~ reachesQuorum o l /\ ~ reachesFailure o l)).
    { unfold reachesQuorum, reachesFailure.
      destruct (decide ((1 <= nShares l)%nat /\
                        int_sub (Threshold o) 1
                          <= len (replies o) + Z.of_nat (nShares l)));
        [by left; left|].
      destruct (decide ((1 <= nRefusals l)%nat /\
                        int_sub (Z.of_nat (nChildren (tni o))) (Threshold o)
                          <= Failures o + Z.of_nat (nRefusals l)));
        [by left; right|by right]. }
    destruct Hprev as [Hprev|[HnQ HnF]].
    + destruct (IH Hprev) as (b & k & Hk & Hb).
      exists b, k. rewrite length_app. split; [lia|].
      by rewrite take_app_le.
    + exists (negb (isRefusal x)), (length (l ++ [x])).
      split; [done|]. rewrite firstn_all.
      unfold reachesQuorum, reachesFailure in *.
      rewrite nShares_snoc, nRefusals_snoc in *.
      destruct (isRefusal x); simpl.
      * destruct Hsome as [HQ|HF]; [done|]. by split.
      * destruct Hsome as [HQ|HF]; [|done]. by split.
Qed.

(** C5, as the code has it: at a root that is set up, over replies that
    are refusals or can be checked, every arrival order gives a run that
    returns and publishes at most one value.  The value is the same for
    every arrival order unless the replies hold both enough replies with a
    share to pass the quorum test and enough refusals to pass the failure
    test; in any case [b] is published exactly when the test for [b] is
    the one passed first. *)
Theorem outcome_written_once (o : OCS) (l1 l2 : list ReencryptReply) :
  ready o -> isDone (tni o) = false ->
  min_int <= Failures o -> Failures o + len l1 <= max_int ->
  Forall (fun rr => Ui rr = None \/ checkable o rr) l1 ->
  l1 ≡ₚ l2 ->
  exists o1 o2,
    run o l1 = Ok o1 /\ run o l2 = Ok o2 /\
    (exists w, Reencrypted o1 = Reencrypted o ++ w /\ (length w <= 1)%nat) /\
    (exists w, Reencrypted o2 = Reencrypted o ++ w /\ (length w <= 1)%nat) /\
    (~ (reachesQuorum o l1 /\ reachesFailure o l1) ->
     Reencrypted o1 = Reencrypted o2) /\
    (forall b, Reencrypted o1 = Reencrypted o ++ [b] <-> passesFirst o l1 b) /\
    (forall b, Reencrypted o2 = Reencrypted o ++ [b] <-> passesFirst o l2 b).
Proof.
  intros Hready Hrun Hmin Hmax Hwf Hperm.
  assert (Hwf2 : Forall (fun rr => Ui rr = None \/ checkable o rr) l2)
    by (by rewrite <- Hperm).
  destruct (run_returns l1 o Hready Hwf) as [o1 Hr1].
  destruct (run_returns l2 o Hready Hwf2) as [o2 Hr2].
  exists o1, o2.
  assert (Hlen : len l2 = len l1)
    by (unfold len; by rewrite (Permutation_length Hperm)).
  assert (HQ : reachesQuorum o l2 <-> reachesQuorum o l1)
    by (unfold reachesQuorum; by rewrite (nShares_perm _ _ Hperm)).
  assert (HF : reachesFailure o l2 <-> reachesFailure o l1)
    by (unfold reachesFailure; by rewrite (nRefusals_perm _ _ Hperm)).
  pose proof (run_outcome l1 o o1 Hrun Hmin Hmax Hr1) as H1.
  pose proof (run_outcome l2 o o2 Hrun Hmin ltac:(lia) Hr2) as H2.
  split_and!; [done|done|..].
  - destruct H1 as [(-> & _)|[(-> & _)|(-> & _)]];
      [exists []; rewrite app_nil_r|eexists|eexists];
      (split; [done|simpl; lia]).
  - destruct H2 as [(-> & _)|[(-> & _)|(-> & _)]];
      [exists []; rewrite app_nil_r|eexists|eexists];
      (split; [done|simpl; lia]).
  - intros Hnot.
    destruct H1 as [(-> & ? & ?)|[(-> & ?)|(-> & ?)]],
             H2 as [(-> & ? & ?)|[(-> & ?)|(-> & ?)]];
      try done; tauto.
  - intros b. split; [|by apply run_first].
    intros Hb.
    assert (Hsome : reachesQuorum o l1 \/ reachesFailure o l1).
    { destruct H1 as [(HR & _)|[(_ & ?)|(_ & ?)]]; [|by left|by right].
      rewrite HR in Hb. symmetry in Hb. by apply app_singleton_neq in Hb. }
    destruct (passesFirst_exists o l1 Hsome) as (b' & k & _ & Hk).
    assert (Hb' : passesFirst o l1 b') by (by exists k).
    pose proof (run_first o l1 o1 b' Hrun Hmin Hmax Hr1 Hb') as Hb2.
    rewrite Hb in Hb2. apply app_inv_head in Hb2. by injection Hb2 as ->.
  - intros b. split; [|apply run_first; [done|done|lia|done]].
    intros Hb.
    assert (Hsome : reachesQuorum o l2 \/ reachesFailure o l2).
    { destruct H2 as [(HR & _)|[(_ & ?)|(_ & ?)]]; [|by left|by right].
      rewrite HR in Hb. symmetry in Hb. by apply app_singleton_neq in Hb. }
    destruct (passesFirst_exists o l2 Hsome) as (b' & k & _ & Hk).
    assert (Hb' : passesFirst o l2 b') by (by exists k).
    pose proof (run_first o l2 o2 b' Hrun Hmin ltac:(lia) Hr2 Hb') as Hb2.
    rewrite Hb in Hb2. apply app_inv_head in Hb2. by injection Hb2 as ->.
Qed.

End Runs.

(** ** The protocol on the small suite *)

Section ToyRuns.
Import Toy.

#[local] Instance toy_laws : SuiteLaws Toy.suite.
Proof.
  split.
  - by intros [] [] [].
  - by intros [].
  - by intros [] [] [].
  - by intros [] [] [].
  - by intros [] [] [].
  - by intros [] [].
  - intros [] []; split; intros H; try done; discriminate H.
Qed.

Lemma toy_replies :
  valid1 = {| Ui := Some {| I := 1; V := F5_1 |}; Ei := Some F5_2; Fi := Some F5_3 |} /\
  valid2 = {| Ui := Some {| I := 2; V := F5_3 |}; Ei := Some F5_2; Fi := Some F5_1 |} /\
  refused3 = refusal /\
  checkProof root4 valid1 = Ok true /\
  checkProof root4 valid2 = Ok true /\
  checkProof root4 forged1 = Ok false /\
  checkProof root4 forged2 = Ok false.
Proof. by vm_compute. Qed.

(** C2, on the code: with four nodes and threshold 3, the refusal of one
    child makes the root publish [false] as soon as it is handled; the two
    valid replies give [true] and three shares only when both arrive
    before the refusal. *)
Lemma scenarioA_refusal_first :
  Threshold root4 = 3 /\ nChildren (tni root4) = 3%nat /\
  published (run root4 [refused3; valid1; valid2]) = Some [false] /\
  published (run root4 [valid1; refused3; valid2]) = Some [false] /\
  published (run root4 [valid1; valid2; refused3]) = Some [true] /\
  accepted (run root4 [valid1; valid2; refused3]) = Some 3%nat.
Proof. by vm_compute. Qed.

(** Against C1: two replies whose proofs fail the check complete the
    quorum of a threshold of 3; [true] is published with the root's own
    share alone. *)
Lemma forged_replies_reach_quorum :
  Threshold root4 = 3 /\
  checkProof root4 forged1 = Ok false /\
  checkProof root4 forged2 = Ok false /\
  published (run root4 [forged1; forged2]) = Some [true] /\
  accepted (run root4 [forged1; forged2]) = Some 1%nat.
Proof. by vm_compute. Qed.


(** The handler itself does not look at [Done]: applied to every reply of
    scenario A it publishes twice. *)
Lemma handler_alone_publishes_twice :
  published (handleAll root4 [refused3; valid1; valid2]) = Some [false; true].
Proof. by vm_compute. Qed.

(** Against C4: a reply whose proof fails the check is the one that ends
    the run, with [true]. *)
Lemma invalid_reply_ends_run :
  isDone (tni (stateAfter root4 [forged1])) = false /\
  published (run root4 [forged1]) = Some [] /\
  checkProof (stateAfter root4 [forged1]) forged2 = Ok false /\
  isDone (tni (stateAfter root4 [forged1; forged2])) = true /\
  published (run root4 [forged1; forged2]) = Some [true].
Proof. by vm_compute. Qed.

(** Against C5: the same replies in two orders, two outcomes. *)
Lemma outcome_depends_on_order :
  [refused3; valid1; valid2] ≡ₚ [valid1; valid2; refused3] /\
  published (run root4 [refused3; valid1; valid2]) = Some [false] /\
  published (run root4 [valid1; valid2; refused3]) = Some [true] /\
  [refused3; refused3; valid1; valid2] ≡ₚ [valid1; valid2; refused3; refused3] /\
  published (run root4 [refused3; refused3; valid1; valid2]) = Some [false] /\
  published (run root4 [valid1; valid2; refused3; refused3]) = Some [true].
Proof.
  split_and!; try by vm_compute.
  - by rewrite (Permutation_app_comm [refused3] [valid1; valid2]).
  - by rewrite (Permutation_app_comm [refused3; refused3] [valid1; valid2]).
Qed.

(** Against C6: the same reply delivered twice completes the quorum of a
    threshold of 3, with two shares in [Uis]. *)
Lemma duplicate_reply_counts :
  Threshold root4 = 3 /\
  published (run root4 [valid1]) = Some [] /\
  len (replies (stateAfter root4 [valid1])) = 1 /\
  published (run root4 [valid1; valid1]) = Some [true] /\
  len (replies (stateAfter root4 [valid1; valid1])) = 2 /\
  accepted (run root4 [valid1; valid1]) = Some 2%nat.
Proof. by vm_compute. Qed.

(** *** The general statements at the small suite *)

Lemma NewOCS_threshold_witness :
  (1 <= nRoster (tree 4 3))%nat /\
  Z.of_nat (nRoster (tree 4 3)) <= max_int /\
  exists o, NewOCS (tree 4 3) None = (Some o, None) /\
            Threshold o = 4 - (4 - 1) / 3.
Proof.
  assert (H1 : (1 <= nRoster (tree 4 3))%nat) by (simpl; lia).
  assert (H2 : Z.of_nat (nRoster (tree 4 3)) <= max_int) by zcompare.
  split_and!; [exact H1|exact H2|].
  exact (NewOCS_threshold (tree 4 3) H1 H2).
Defined.

Lemma honest_proof_accepted_witness :
  U root4 = Some encU /\ Xc root4 = Some clientXc /\ Poly root4 = Some poly /\
  poly 1 = point_mul (secret 1) point_base /\
  let W := point_add encU clientXc in
  let ui := {| I := 1; V := point_mul (secret 1) W |} in
  let e := hashPoints (V ui) (point_mul F5_2 W) (point_mul F5_2 point_base) in
  let f := scalar_add F5_2 (scalar_mul e (secret 1)) in
  let uiHat' := point_add (point_mul f W) (point_mul (scalar_neg e) (V ui)) in
  let hiHat' := point_add (point_mul f point_base)
                          (point_mul (scalar_neg e) (poly 1)) in
  hashPoints (V ui) uiHat' hiHat' = e /\
  checkProof root4 {| Ui := Some ui; Ei := Some e; Fi := Some f |} = Ok true.
Proof.
  split_and!; [reflexivity..|].
  exact (honest_proof_accepted (laws := toy_laws) root4 encU clientXc poly 1
           (secret 1) F5_2 eq_refl eq_refl eq_refl eq_refl).
Defined.

Lemma Start_rejected_witness :
  Shared strictRoot = Some {| Index := 0; sV := secret 0 |} /\
  U strictRoot = Some encU /\
  Verify strictRoot = Some (fun _ => false) /\
  exists o' err,
    Start strictRoot 0 = (o', Some err) /\
    Reencrypted o' = Reencrypted strictRoot ++ [false] /\
    isDone (tni o') = true /\
    broadcasts (tni o') = broadcasts (tni strictRoot).
Proof.
  split_and!; [reflexivity..|].
  exact (Start_rejected strictRoot 0 {| Index := 0; sV := secret 0 |} encU
           (fun _ => false) eq_refl eq_refl eq_refl eq_refl).
Defined.

Lemma reencrypt_sends_one_reply_witness :
  Shared (leaf 1 None) = Some {| Index := 1; sV := secret 1 |} /\
  exists reply,
    reencrypt (leaf 1 None) F5_2 None received
      = Ok (Done (SendToParent reply (leaf 1 None)), None) /\
    toParent (tni (Done (SendToParent reply (leaf 1 None))))
      = toParent (tni (leaf 1 None)) ++ [reply] /\
    (reply = refusal \/
     exists ui e f, reply = {| Ui := Some ui; Ei := Some e; Fi := Some f |}).
Proof.
  split; [reflexivity|].
  exact (proj2 (reencrypt_sends_one_reply (leaf 1 None)
                  {| Index := 1; sV := secret 1 |} F5_2 None
                  received eq_refl)).
Defined.

Lemma true_only_on_reply_quorum_witness :
  let o := stateAfter root4 [valid1] in
  let o' := stateAfter root4 [valid1; valid2] in
  reencryptReply o valid2 = Ok (o', None) /\
  Reencrypted o' = Reencrypted o ++ [true] /\
  is_Some (Ui valid2) /\
  replies o' = replies o ++ [valid2] /\
  int_sub (Threshold o) 1 <= len (replies o') /\
  forall (i : nat) (u : PubShare), Uis o' !! i = Some (Some u) ->
    (i = 0%nat /\ getUI o (U o) (Xc o) = Ok (u, None)) \/
    (exists r, r ∈ replies o' /\ Ui r = Some u /\ I u = Z.of_nat i /\
               checkProof o r = Ok true).
Proof.
  intros o o'.
  assert (H1 : reencryptReply o valid2 = Ok (o', None)) by (by vm_compute).
  assert (H2 : Reencrypted o' = Reencrypted o ++ [true]) by (by vm_compute).
  split_and!; [exact H1|exact H2|..];
    apply (true_only_on_reply_quorum o valid2 o' None H1 H2).
Defined.

Lemma invalid_reply_effect_witness :
  let o := stateAfter root4 [valid1] in
  let o' := stateAfter root4 [valid1; forged1] in
  checkProof o forged1 = Ok false /\
  reencryptReply o forged1 = Ok (o', None) /\
  Failures o' = Failures o /\
  replies o' = replies o ++ [forged1] /\
  Reencrypted o' = Reencrypted o ++ [true] /\
  isDone (tni o') = true /\
  exists u0 us0,
    getUI o (U o) (Xc o) = Ok (u0, None) /\
    storeUi (replicate (nList (tni o)) None) 0 u0 = Ok us0 /\
    verifyReplies o (replies o) us0 = Ok (Uis o').
Proof.
  intros o o'.
  assert (H1 : checkProof o forged1 = Ok false) by (by vm_compute).
  assert (H2 : reencryptReply o forged1 = Ok (o', None)) by (by vm_compute).
  assert (H3 : int_sub (Threshold o) 1 <= len (replies o')) by zcompare.
  pose proof (invalid_reply_effect o forged1 o' None H1 H2)
    as (HF & HR & _ & Hq).
  destruct (Hq H3) as (Hpub & Hdone & HUis).
  split_and!; [exact H1|exact H2|exact HF|exact HR|exact Hpub|exact Hdone|exact HUis].
Defined.

Lemma duplicate_index_overwrites_witness :
  let ui := {| I := 1; V := F5_1 |} in
  let us := Uis (stateAfter root4 [valid1; valid2]) in
  Ui valid1 = Some ui /\
  0 <= I ui /\
  us !! Z.to_nat (I ui) = Some (Some ui) /\
  verifyReplies root4 [valid1] us = Ok us /\
  countShares us = countShares us /\
  length us = length us /\
  (forall i : nat, i <> Z.to_nat (I ui) -> us !! i = us !! i) /\
  (checkProof root4 valid1 = Ok true -> us !! Z.to_nat (I ui) = Some (Some ui)) /\
  (forall o' err, reencryptReply root4 valid1 = Ok (o', err) ->
     replies o' = replies root4 ++ [valid1] /\
     len (replies o') = len (replies root4) + 1).
Proof.
  intros ui us.
  assert (H1 : Ui valid1 = Some ui) by reflexivity.
  assert (H2 : 0 <= I ui) by zcompare.
  assert (H3 : us !! Z.to_nat (I ui) = Some (Some ui)) by reflexivity.
  assert (H4 : verifyReplies root4 [valid1] us = Ok us) by (by vm_compute).
  split_and!; [exact H1|exact H2|exact H3|exact H4|..];
    apply (duplicate_index_overwrites root4 valid1 ui ui us us H1 H2 H3 H4).
Defined.


Lemma toy_ready : ready root4.
Proof. split_and!; [by eexists..|simpl; lia|constructor]. Qed.

Lemma valid1_checkable : checkable root4 valid1.
Proof.
  exists {| I := 1; V := (F5_1 : @Point Toy.suite) |},
    (F5_2 : @Scalar Toy.suite), (F5_3 : @Scalar Toy.suite).
  split_and!; try reflexivity. intros _. by vm_compute.
Qed.

Lemma valid2_checkable : checkable root4 valid2.
Proof.
  exists {| I := 2; V := (F5_3 : @Point Toy.suite) |},
    (F5_2 : @Scalar Toy.suite), (F5_1 : @Scalar Toy.suite).
  split_and!; try reflexivity. intros _. by vm_compute.
Qed.

Lemma outcome_written_once_witness :
  (let l1 := [valid1; valid2] in
   let l2 := [valid2; valid1] in
   ready root4 /\ isDone (tni root4) = false /\
   min_int <= Failures root4 /\ Failures root4 + len l1 <= max_int /\
   Forall (fun rr => Ui rr = None \/ checkable root4 rr) l1 /\
   l1 ≡ₚ l2 /\
   ~ (reachesQuorum root4 l1 /\ reachesFailure root4 l1) /\
   exists o1 o2,
     run root4 l1 = Ok o1 /\ run root4 l2 = Ok o2 /\
     Reencrypted o1 = Reencrypted o2 /\
     Reencrypted o1 = Reencrypted root4 ++ [true]) /\
  (let l1 := [refused3; valid1; valid2] in
   let l2 := [valid1; valid2; refused3] in
   ready root4 /\ isDone (tni root4) = false /\
   min_int <= Failures root4 /\ Failures root4 + len l1 <= max_int /\
   Forall (fun rr => Ui rr = None \/ checkable root4 rr) l1 /\
   l1 ≡ₚ l2 /\
   passesFirst root4 l1 false /\ passesFirst root4 l2 true /\
   exists o1 o2,
     run root4 l1 = Ok o1 /\ run root4 l2 = Ok o2 /\
     Reencrypted o1 = Reencrypted root4 ++ [false] /\
     Reencrypted o2 = Reencrypted root4 ++ [true]).
Proof.
  split; intros l1 l2.
  - assert (H1 : isDone (tni root4) = false) by reflexivity.
    assert (H2 : min_int <= Failures root4) by zcompare.
    assert (H3 : Failures root4 + len l1 <= max_int) by zcompare.
    assert (H4 : Forall (fun rr => Ui rr = None \/ checkable root4 rr) l1).
    { constructor; [right; apply valid1_checkable|].
      constructor; [right; apply valid2_checkable|constructor]. }
    assert (H5 : l1 ≡ₚ l2) by apply perm_swap.
    assert (H6 : ~ (reachesQuorum root4 l1 /\ reachesFailure root4 l1)).
    { intros [_ [H _]]. vm_compute in H. lia. }
    assert (H7 : passesFirst root4 l1 true).
    { exists 2%nat. split.
      - split; [vm_compute; lia|zcompare].
      - intros [H _]. vm_compute in H. lia. }
    destruct (outcome_written_once root4 l1 l2 toy_ready H1 H2 H3 H4 H5)
      as (o1 & o2 & R1 & R2 & _ & _ & Hsame & Hf1 & _).
    refine (conj toy_ready (conj H1 (conj H2 (conj H3 (conj H4 (conj H5
              (conj H6 _))))))).
    exists o1, o2.
    exact (conj R1 (conj R2 (conj (Hsame H6) (proj2 (Hf1 true) H7)))).
  - assert (H1 : isDone (tni root4) = false) by reflexivity.
    assert (H2 : min_int <= Failures root4) by zcompare.
    assert (H3 : Failures root4 + len l1 <= max_int) by zcompare.
    assert (H4 : Forall (fun rr => Ui rr = None \/ checkable root4 rr) l1).
    { constructor; [by left|].
      constructor; [right; apply valid1_checkable|].
      constructor; [right; apply valid2_checkable|constructor]. }
    assert (H5 : l1 ≡ₚ l2)
      by apply (Permutation_app_comm [refused3] [valid1; valid2]).
    assert (H6 : passesFirst root4 l1 false).
    { exists 1%nat. split.
      - split; [vm_compute; lia|zcompare].
      - intros [H _]. vm_compute in H. lia. }
    assert (H7 : passesFirst root4 l2 true).
    { exists 2%nat. split.
      - split; [vm_compute; lia|zcompare].
      - intros [H _]. vm_compute in H. lia. }
    destruct (outcome_written_once root4 l1 l2 toy_ready H1 H2 H3 H4 H5)
      as (o1 & o2 & R1 & R2 & _ & _ & _ & Hf1 & Hf2).
    refine (conj toy_ready (conj H1 (conj H2 (conj H3 (conj H4 (conj H5
              (conj H6 (conj H7 _)))))))).
    exists o1, o2.
    exact (conj R1 (conj R2 (conj (proj2 (Hf1 false) H6) (proj2 (Hf2 true) H7)))).
Defined.

End ToyRuns.

(** * Further properties of the handlers *)

Section StartFacts.
Context {suite : Suite}.

(** X1: without [Shared], [Start] returns its first error, and with
    [Shared] but without [U] its second one; in both cases, whatever the
    policy hook, the instance is returned as it was: nothing is
    published, nothing is broadcast and [Done] is not called. *)
Theorem Start_uninitialised (o : OCS) (errs : nat) :
  (Shared o = None ->
   Start o errs = (o, Some "please initialize Shared first"%string)) /\
  (is_Some (Shared o) -> U o = None ->
   Start o errs = (o, Some "please initialize U first"%string)).
Proof.
  unfold Start. split.
  - by intros ->.
  - by intros [sh ->] ->.
Qed.

(** X2: when the policy hook is absent or accepts, [Start] hands the
    request to [Broadcast] exactly once and publishes nothing; it returns
    an error exactly when more than [floor((n-1)/3)] sends failed, and
    even then nothing is published and [Done] is not called. *)
Theorem Start_broadcasts (o : OCS) (errs : nat) (sh : SharedSecret) (u : Point) :
  Shared o = Some sh -> U o = Some u ->
  match Verify o with Some verify => verify (request o u) | None => true end = true ->
  (1 <= nRoster (tni o))%nat -> Z.of_nat (nRoster (tni o)) <= max_int ->
  let o' := (Start o errs).1 in
  broadcasts (tni o') = broadcasts (tni o) ++ [request o u] /\
  Reencrypted o' = Reencrypted o /\
  isDone (tni o') = isDone (tni o) /\
  ((Start o errs).2 = None <->
   Z.of_nat errs <= (Z.of_nat (nRoster (tni o)) - 1) / 3).
Proof.
  intros Hsh Hu Hv Hn Hmax.
  destruct (Start_accepted o errs sh u Hsh Hu Hv) as (err & -> & Herr).
  simpl. split_and!; [done..|]. rewrite Herr.
  unfold int_div, int_sub.
  assert (Hq : 0 <= (Z.of_nat (nRoster (tni o)) - 1) / 3
               <= Z.of_nat (nRoster (tni o)) - 1).
  { split; [apply Z.div_pos; lia|]. apply Z.div_le_upper_bound; lia. }
  unfold max_int in Hmax.
  rewrite (wrap_small (Z.of_nat (nRoster (tni o)) - 1))
    by (unfold min_int, max_int; lia).
  rewrite Z.quot_div_nonneg by lia.
  rewrite wrap_small by (unfold min_int, max_int; lia). done.
Qed.

(** X3: whatever its inputs, [Start] never publishes [true]; it publishes
    [false] only together with [Done] and without broadcasting; and it
    never touches the shares, the threshold, the counters or the replies. *)
Theorem Start_effects (o : OCS) (errs : nat) :
  let o' := (Start o errs).1 in
  ((Reencrypted o' = Reencrypted o /\ isDone (tni o') = isDone (tni o)) \/
   (Reencrypted o' = Reencrypted o ++ [false] /\ isDone (tni o') = true /\
    broadcasts (tni o') = broadcasts (tni o))) /\
  Shared o' = Shared o /\ U o' = U o /\ Xc o' = Xc o /\
  Threshold o' = Threshold o /\ Failures o' = Failures o /\
  replies o' = replies o /\ Uis o' = Uis o /\
  toParent (tni o') = toParent (tni o).
Proof.
  unfold Start. cbv zeta.
  destruct (Shared o) eqn:Hsh; [|simpl; by split_and!; [left|..]].
  destruct (U o) eqn:Hu; [|simpl; by split_and!; [left|..]].
  destruct (match Verify o with Some _ => _ | None => _ end).
  - simpl. by split_and!; [right|..].
  - simpl. destruct (_ <? _); simpl; by split_and!; [left|..].
Qed.

(** X4: the threshold of a roster of [n] nodes lies between 1 and [n],
    and the [f = n - Threshold] nodes it leaves out satisfy [3f + 1 <= n]
    and [2f + 1 <= Threshold]. *)
Theorem newThreshold_bounds (n : nat) :
  (1 <= n)%nat -> Z.of_nat n <= max_int ->
  let t := newThreshold n in
  1 <= t <= Z.of_nat n /\
  3 * (Z.of_nat n - t) + 1 <= Z.of_nat n /\
  2 * (Z.of_nat n - t) + 1 <= t.
Proof.
  intros Hn Hmax t. unfold t. rewrite newThreshold_floor by done.
  pose proof (Z.mul_div_le (Z.of_nat n - 1) 3 ltac:(lia)).
  assert (0 <= (Z.of_nat n - 1) / 3) by (apply Z.div_pos; lia).
  lia.
Qed.

End StartFacts.

Section NodeFacts.
Context {suite : Suite}.

(** X5: [reencrypt] panics exactly when the node's [Shared] is nil: the
    share is dereferenced before the policy hook is consulted, so such a
    node sends nothing, not even a refusal. *)
Theorem reencrypt_panics_iff (o : OCS) (si : Scalar) (sendErr : option error)
    (r : structReencrypt) :
  reencrypt o si sendErr r = Panic <-> Shared o = None.
Proof.
  unfold reencrypt, getUI. destruct (Shared o) as [sh|]; simpl; [|done].
  by destruct (match Verify o with Some _ => _ | None => _ end).
Qed.

(** X6: a node with its share answers with the empty reply exactly when
    its policy hook is set and rejects the request; otherwise the reply
    carries the node's index and the point [x*U + x*Xc], with challenge
    and response. *)
Theorem reencrypt_refuses_iff (o : OCS) (sh : SharedSecret) (si : Scalar)
    (sendErr : option error) (r : structReencrypt) :
  Shared o = Some sh ->
  exists reply,
    reencrypt o si sendErr r = Ok (Done (SendToParent reply o), sendErr) /\
    (Ui reply = None <->
     exists verify, Verify o = Some verify /\ verify (sr_Reencrypt r) = false) /\
    (forall ui, Ui reply = Some ui ->
       I ui = Index sh /\
       V ui = point_add (point_mul (sV sh) (sr_U r)) (point_mul (sV sh) (sr_Xc r)) /\
       is_Some (Ei reply) /\ is_Some (Fi reply)).
Proof.
  intros Hsh. unfold reencrypt. rewrite (getUI_ok o sh) by done. simpl.
  destruct (Verify o) as [verify|];
    [destruct (verify (sr_Reencrypt r)) eqn:Hv|]; simpl.
  - rewrite Hsh. eexists. split; [done|]. simpl. split.
    + split; [done|]. intros (v & [= <-] & Hrej). congruence.
    + intros ui [= <-]. by split_and!; [..|eexists|eexists].
  - exists refusal. split; [done|]. simpl. split; [|done].
    split; [|done]. intros _. by exists verify.
  - rewrite Hsh. eexists. split; [done|]. simpl. split.
    + split; [done|]. by intros (v & [=] & _).
    + intros ui [= <-]. by split_and!; [..|eexists|eexists].
Qed.

(** X7: a node's handler always calls [Done], returns what
    [SendToParent] returned, and changes nothing else: it publishes no
    outcome, broadcasts nothing and leaves counters, replies and shares
    alone. *)
Theorem reencrypt_frame (o : OCS) (si : Scalar) (sendErr : option error)
    (r : structReencrypt) (o' : OCS) (err : option error) :
  reencrypt o si sendErr r = Ok (o', err) ->
  err = sendErr /\ isDone (tni o') = true /\
  length (toParent (tni o')) = S (length (toParent (tni o))) /\
  broadcasts (tni o') = broadcasts (tni o) /\
  Reencrypted o' = Reencrypted o /\ Failures o' = Failures o /\
  replies o' = replies o /\ Uis o' = Uis o /\
  Shared o' = Shared o /\ Threshold o' = Threshold o.
Proof.
  unfold reencrypt, getUI. destruct (Shared o) as [sh|] eqn:Hsh; simpl; [|done].
  destruct (match Verify o with Some _ => _ | None => _ end);
    intros [= <- <-]; simpl; rewrite length_app; simpl;
    split_and!; (done || lia).
Qed.

End NodeFacts.

Section RootFacts.
Context {suite : Suite}.

Lemma len_snoc {A} (l : list A) (x : A) : len (l ++ [x]) = len l + 1.
Proof. unfold len. rewrite length_app. simpl. lia. Qed.

(** The loop never empties a slot. *)
Lemma verifyReplies_keeps_filled (o : OCS) (rs : list ReencryptReply)
    (us us' : list (option PubShare)) (i : nat) (u : PubShare) :
  verifyReplies o rs us = Ok us' -> us !! i = Some (Some u) ->
  exists u', us' !! i = Some (Some u').
Proof.
  revert us u. induction rs as [|r rs IH]; intros us u; simpl.
  - intros [= <-] Hi. by eexists.
  - destruct (checkProof o r) as [[]|]; simpl; [| |done].
    + destruct (Ui r) as [ui|]; simpl; [|done].
      destruct (storeUi us (I ui) ui) as [us1|] eqn:Hst; simpl; [|done].
      apply storeUi_ok in Hst as [Hrange ->]. intros Hrs Hi.
      destruct (decide (Z.to_nat (I ui) = i)) as [<-|Hne].
      * eapply IH; [exact Hrs|]. apply list_lookup_insert_eq.
        unfold len in Hrange. lia.
      * eapply IH; [exact Hrs|]. by rewrite list_lookup_insert_ne.
    + apply IH.
Qed.

(** X8: the root's handler never returns an error and never sends a
    message; it leaves the shares of the instance, the points, the
    threshold, the policy hook and the shape of the tree as they are. *)
Theorem reencryptReply_frame (o : OCS) (rr : ReencryptReply) (o' : OCS)
    (err : option error) :
  reencryptReply o rr = Ok (o', err) ->
  err = None /\
  broadcasts (tni o') = broadcasts (tni o) /\
  toParent (tni o') = toParent (tni o) /\
  Shared o' = Shared o /\ U o' = U o /\ Xc o' = Xc o /\ Poly o' = Poly o /\
  Threshold o' = Threshold o /\ Verify o' = Verify o /\
  nRoster (tni o') = nRoster (tni o) /\
  nChildren (tni o') = nChildren (tni o) /\
  nList (tni o') = nList (tni o).
Proof.
  destruct (Ui rr) as [ui|] eqn:Hui.
  - rewrite (reencryptReply_share o rr ui Hui). simpl.
    destruct (_ <=? _).
    + destruct (getUI _ _ _) as [[u0 e0]|]; [|done]. simpl.
      destruct (storeUi _ 0 u0) as [us0|]; [|done]. simpl.
      destruct (verifyReplies o _ us0); [|done]. simpl.
      by intros [= <- <-].
    + by intros [= <- <-].
  - rewrite (reencryptReply_refusal o rr Hui). simpl.
    by destruct (_ <=? _); intros [= <- <-].
Qed.

(** X9: whenever the handler publishes [true] it has called [Done], and
    [Uis] has one slot per node of the tree, the first of which holds a
    share. *)
Theorem published_true_shape (o : OCS) (rr : ReencryptReply) (o' : OCS)
    (err : option error) :
  reencryptReply o rr = Ok (o', err) ->
  Reencrypted o' = Reencrypted o ++ [true] ->
  isDone (tni o') = true /\
  length (Uis o') = nList (tni o) /\
  (0 < nList (tni o))%nat /\
  exists u, Uis o' !! 0%nat = Some (Some u).
Proof.
  destruct (Ui rr) as [ui|] eqn:Hui.
  - rewrite (reencryptReply_share o rr ui Hui). simpl.
    destruct (_ <=? _).
    + destruct (getUI _ _ _) as [[u0 e0]|]; [|done]. simpl.
      destruct (storeUi _ 0 u0) as [us0|] eqn:Hst; [|done]. simpl.
      destruct (verifyReplies o _ us0) as [us|] eqn:Hrs; [|done]. simpl.
      intros [= <- <-] _. simpl.
      apply storeUi_ok in Hst as [Hrange ->].
      unfold len in Hrange. rewrite length_replicate in Hrange.
      split_and!; [done| |lia|].
      * rewrite (verifyReplies_length _ _ _ _ Hrs).
        by rewrite length_insert, length_replicate.
      * eapply verifyReplies_keeps_filled; [exact Hrs|].
        apply list_lookup_insert_eq. rewrite length_replicate. lia.
    + intros [= <- <-]. simpl. intros H. symmetry in H.
      by apply app_singleton_neq in H.
  - rewrite (reencryptReply_refusal o rr Hui). simpl.
    destruct (_ <=? _); intros [= <- <-]; simpl; intros H.
    + by apply app_inv_head in H.
    + symmetry in H. by apply app_singleton_neq in H.
Qed.

(** X10: a reply whose proof passes the check but whose index lies
    outside [Uis] makes the handler panic when it completes the quorum. *)
Theorem verified_reply_out_of_range (o : OCS) (rr : ReencryptReply)
    (ui : PubShare) :
  Ui rr = Some ui -> checkProof o rr = Ok true ->
  ~ (0 <= I ui < Z.of_nat (nList (tni o))) ->
  int_sub (Threshold o) 1 <= len (replies o) + 1 ->
  reencryptReply o rr = Panic.
Proof.
  intros Hui Hck Hout Hq.
  rewrite (reencryptReply_share o rr ui Hui). simpl.
  rewrite len_snoc.
  destruct (Z.leb_spec (int_sub (Threshold o) 1) (len (replies o) + 1));
    [|lia].
  destruct (getUI _ _ _) as [[u0 e0]|]; [|done]. simpl.
  destruct (storeUi _ 0 u0) as [us0|] eqn:Hst; [|done]. simpl.
  apply storeUi_ok in Hst as [_ ->].
  rewrite verifyReplies_app.
  destruct (verifyReplies o (replies o) _) as [us1|] eqn:Hrs; [|done].
  apply verifyReplies_length in Hrs.
  rewrite length_insert, length_replicate in Hrs.
  simpl. rewrite Hck. simpl. rewrite Hui. simpl.
  unfold storeUi, len. rewrite Hrs.
  destruct (Z.leb_spec 0 (I ui)), (Z.ltb_spec (I ui) (Z.of_nat (nList (tni o))));
    simpl; (done || lia).
Qed.

End RootFacts.

Section RunFacts.
Context {suite : Suite}.

(** X11: what a run publishes is decided by the two tests alone: nothing
    when the replies can pass neither, [true] when they can pass only the
    quorum test, [false] when they can pass only the failure test. *)
Theorem run_decides (o : OCS) (l : list ReencryptReply) (o' : OCS) :
  isDone (tni o) = false ->
  min_int <= Failures o -> Failures o + len l <= max_int ->
  run o l = Ok o' ->
  (Reencrypted o' = Reencrypted o <->
   ~ reachesQuorum o l /\ ~ reachesFailure o l) /\
  (~ reachesFailure o l ->
   (Reencrypted o' = Reencrypted o ++ [true] <-> reachesQuorum o l)) /\
  (~ reachesQuorum o l ->
   (Reencrypted o' = Reencrypted o ++ [false] <-> reachesFailure o l)).
Proof.
  intros Hrun Hmin Hmax Hr.
  pose proof (@app_singleton_neq bool (Reencrypted o)) as Hneq.
  destruct (run_outcome l o o' Hrun Hmin Hmax Hr)
    as [(HR & HQ & HF)|[(HR & HQ)|(HR & HF)]]; rewrite HR.
  - split_and!.
    + done.
    + intros _. split; [|done]. intros H. symmetry in H. by apply Hneq in H.
    + intros _. split; [|done]. intros H. symmetry in H. by apply Hneq in H.
  - split_and!.
    + split; [|tauto]. intros H. by apply Hneq in H.
    + done.
    + tauto.
  - split_and!.
    + split; [|tauto]. intros H. by apply Hneq in H.
    + tauto.
    + done.
Qed.

(** A run over refusals alone. *)
Lemma run_refusals (l : list ReencryptReply) (o : OCS) :
  isDone (tni o) = false ->
  Forall (fun rr => Ui rr = None) l ->
  min_int <= Failures o -> Failures o + len l <= max_int ->
  let D := int_sub (Z.of_nat (nChildren (tni o))) (Threshold o) in
  exists o',
    run o l = Ok o' /\
    Failures o' = Failures o + Z.min (len l) (Z.max 1 (D - Failures o)) /\
    Reencrypted o' = Reencrypted o ++
      (if (1 <=? len l) && (D - Failures o <=? len l) then [false] else []) /\
    replies o' = replies o /\ Uis o' = Uis o.
Proof.
  revert o. induction l as [|rr l IH]; intros o Hrun Hl Hmin Hmax D.
  - exists o. simpl. unfold len. simpl.
    split_and!; [done|lia|by rewrite app_nil_r|done|done].
  - apply Forall_cons in Hl as [Hrr Hl].
    assert (Hlen : len (rr :: l) = len l + 1) by (unfold len; simpl; lia).
    assert (Hl0 : 0 <= len l) by (unfold len; lia).
    assert (Hadd : int_add (Failures o) 1 = Failures o + 1)
      by (apply wrap_small; lia).
    simpl. unfold deliver. rewrite Hrun, (reencryptReply_refusal o rr Hrr).
    simpl. fold D. rewrite Hadd, Hlen.
    destruct (Z.leb_spec D (Failures o + 1)) as [Hq|Hq].
    + rewrite run_done by done. eexists. split; [done|]. simpl.
      destruct (Z.leb_spec 1 (len l + 1)); [|lia].
      destruct (Z.leb_spec (D - Failures o) (len l + 1)); [|lia].
      simpl. split_and!; [lia|done..].
    + destruct (IH (set_Failures (Failures o + 1) o) Hrun Hl
                  ltac:(simpl; lia) ltac:(simpl; lia))
        as (o' & Ho' & HF & HR & Hrep & HU).
      exists o'. simpl in *. fold D in HF, HR.
      split_and!; [done|lia| |done|done].
      rewrite HR. f_equal.
      destruct (Z.leb_spec 1 (len l)), (Z.leb_spec 1 (len l + 1)),
               (Z.leb_spec (D - (Failures o + 1)) (len l)),
               (Z.leb_spec (D - Failures o) (len l + 1)); simpl; (done || lia).
Qed.

(** X12: at a root created by [NewOCS] for [n] nodes, all of them its
    children, refusals are counted one by one and [false] is published by
    the first refusal that brings the count to [floor((n-1)/3) - 1]: the
    very first one for every roster of up to nine nodes. *)
Theorem refusals_until_failure (o : OCS) (l : list ReencryptReply) :
  isDone (tni o) = false -> Failures o = 0 ->
  (1 <= nRoster (tni o))%nat -> Z.of_nat (nRoster (tni o)) <= max_int ->
  Threshold o = newThreshold (nRoster (tni o)) ->
  nChildren (tni o) = (nRoster (tni o) - 1)%nat ->
  Forall (fun rr => Ui rr = None) l -> len l <= max_int ->
  let f := (Z.of_nat (nRoster (tni o)) - 1) / 3 in
  exists o',
    run o l = Ok o' /\
    Failures o' = Z.min (len l) (Z.max 1 (f - 1)) /\
    Reencrypted o' = Reencrypted o ++
      (if (1 <=? len l) && (f - 1 <=? len l) then [false] else []) /\
    (Z.of_nat (nRoster (tni o)) <= 9 -> 1 <= len l ->
     Reencrypted o' = Reencrypted o ++ [false]).
Proof.
  intros Hrun HF Hn Hmax HT HC Hl Hlen f.
  assert (Hf : 0 <= f <= Z.of_nat (nRoster (tni o)) - 1).
  { unfold f. split; [apply Z.div_pos; lia|].
    apply Z.div_le_upper_bound; lia. }
  assert (HD : int_sub (Z.of_nat (nChildren (tni o))) (Threshold o) = f - 1).
  { rewrite HT, HC, newThreshold_floor by done. fold f.
    unfold int_sub. unfold max_int in Hmax.
    rewrite wrap_small by (unfold min_int, max_int; lia). lia. }
  destruct (run_refusals l o Hrun Hl) as (o' & Ho' & HF' & HR & _);
    [unfold min_int; lia|lia|].
  rewrite HD, HF in HF', HR. rewrite Z.sub_0_r in HF', HR.
  exists o'. split_and!; [done|lia|done|].
  intros H9 H1. rewrite HR.
  assert (f < 3) by (unfold f; apply Z.div_lt_upper_bound; lia).
  destruct (Z.leb_spec 1 (len l)), (Z.leb_spec (f - 1) (len l));
    simpl; (done || lia).
Qed.

(** *** A quorum of verified replies *)

Lemma countShares_replicate (n : nat) :
  countShares (replicate n (@None PubShare)) = 0%nat.
Proof.
  induction n as [|n IH]; [done|].
  simpl. by rewrite countShares_cons.
Qed.

(** Before the quorum, replies with a share are only appended. *)
Lemma run_below_quorum (l : list ReencryptReply) (o : OCS) :
  isDone (tni o) = false ->
  Forall (fun r => is_Some (Ui r)) l ->
  len (replies o) + len l < int_sub (Threshold o) 1 ->
  exists o1,
    run o l = Ok o1 /\ replies o1 = replies o ++ l /\
    isDone (tni o1) = false /\ Reencrypted o1 = Reencrypted o /\
    Shared o1 = Shared o /\ U o1 = U o /\ Xc o1 = Xc o /\ Poly o1 = Poly o /\
    Threshold o1 = Threshold o /\ nList (tni o1) = nList (tni o).
Proof.
  revert o. induction l as [|rr l IH]; intros o Hrun Hl Hlt.
  - exists o. simpl. rewrite app_nil_r. by split_and!.
  - apply Forall_cons in Hl as [[ui Hui] Hl].
    assert (Hlen : len (rr :: l) = len l + 1) by (unfold len; simpl; lia).
    assert (Hl0 : 0 <= len l) by (unfold len; lia).
    simpl. unfold deliver. rewrite Hrun, (reencryptReply_share o rr ui Hui).
    simpl. rewrite len_snoc.
    destruct (Z.leb_spec (int_sub (Threshold o) 1) (len (replies o) + 1));
      [lia|]. simpl.
    destruct (IH (set_replies (replies o ++ [rr]) o) Hrun Hl)
      as (o1 & Ho1 & Hrep & H'); [simpl; rewrite len_snoc; lia|].
    exists o1. simpl in *. split; [done|]. split; [|done].
    by rewrite Hrep, <- app_assoc.
Qed.

(** The loop over verified replies with distinct indices, all of whose
    slots are empty. *)
Lemma verifyReplies_distinct (o : OCS) (rs : list ReencryptReply)
    (us : list (option PubShare)) :
  Forall (verified o) rs ->
  NoDup (shareIndex <$> rs) ->
  length us = nList (tni o) ->
  (forall r ui, r ∈ rs -> Ui r = Some ui -> us !! Z.to_nat (I ui) = Some None) ->
  exists us',
    verifyReplies o rs us = Ok us' /\
    (forall r ui, r ∈ rs -> Ui r = Some ui ->
       us' !! Z.to_nat (I ui) = Some (Some ui)) /\
    (forall i : nat,
       (forall r ui, r ∈ rs -> Ui r = Some ui -> Z.to_nat (I ui) <> i) ->
       us' !! i = us !! i) /\
    countShares us' = (countShares us + length rs)%nat.
Proof.
  intros Hrs. revert us.
  induction Hrs as [|r rs (ui & Hui & Hck & Hrange) Hrs IH];
    intros us Hnd Hlen Hempty.
  - exists us. simpl. split_and!; [done| |done|lia].
    intros r ui Hin. by apply elem_of_nil in Hin.
  - rewrite fmap_cons in Hnd. apply NoDup_cons in Hnd as [Hnotin Hnd].
    assert (Hother : forall r' ui', r' ∈ rs -> Ui r' = Some ui' ->
              Z.to_nat (I ui') <> Z.to_nat (I ui)).
    { intros r' ui' Hin Hui' Heq. apply Hnotin.
      apply list_elem_of_fmap. exists r'. split; [|done].
      unfold shareIndex. rewrite Hui, Hui'. simpl. f_equal.
      rewrite Forall_forall in Hrs.
      destruct (Hrs r' Hin) as (ui'' & Hui'' & _ & Hr').
      rewrite Hui' in Hui''. injection Hui'' as <-. lia. }
    simpl. rewrite Hck. simpl. rewrite Hui. simpl.
    unfold storeUi, len. rewrite Hlen.
    destruct (Z.leb_spec 0 (I ui)); [|lia].
    destruct (Z.ltb_spec (I ui) (Z.of_nat (nList (tni o)))); [|lia].
    simpl.
    destruct (IH (<[Z.to_nat (I ui) := Some ui]> us) Hnd)
      as (us' & Hus' & Hown & Hframe & Hcount).
    { by rewrite length_insert. }
    { intros r' ui' Hin Hui'.
      rewrite list_lookup_insert_ne by (intros Heq; by eapply Hother).
      apply (Hempty r'); [by right|done]. }
    exists us'. split; [done|]. split_and!.
    + intros r' ui' Hin Hui'. apply elem_of_cons in Hin as [->|Hin].
      * rewrite Hui in Hui'. injection Hui' as <-.
        rewrite Hframe by done.
        apply list_lookup_insert_eq. lia.
      * by apply (Hown r').
    + intros i Hi. rewrite Hframe.
      * apply list_lookup_insert_ne. apply (Hi r); [by left|done].
      * intros r' ui' Hin. apply Hi. by right.
    + rewrite Hcount, (countShares_fill us); [simpl; lia|].
      apply (Hempty r); [by left|done].
Qed.

(** X13: when exactly [Threshold - 1] replies arrive at a fresh root,
    each with a passing proof and an index of its own between 1 and
    [len(List) - 1], the run publishes [true] on the last of them; [Uis]
    then holds the root's own share in slot 0 and the share of every reply
    in the slot of its index, [Threshold] shares in all and nothing else,
    and whatever arrives later changes nothing. *)
Theorem quorum_of_verified_replies (o : OCS) (sh : SharedSecret)
    (l : list ReencryptReply) :
  isDone (tni o) = false -> replies o = [] ->
  Shared o = Some sh ->
  Forall (verified o) l ->
  Forall (fun r => shareIndex r <> Some 0) l ->
  NoDup (shareIndex <$> l) ->
  1 <= len l -> len l = int_sub (Threshold o) 1 ->
  exists o',
    run o l = Ok o' /\
    Reencrypted o' = Reencrypted o ++ [true] /\
    isDone (tni o') = true /\
    Uis o' !! 0%nat
      = Some (Some {| I := Index sh;
                      V := point_add (Mul (sV sh) (U o))
                                     (Mul (sV sh) (Xc o)) |}) /\
    (forall r ui, r ∈ l -> Ui r = Some ui ->
       Uis o' !! Z.to_nat (I ui) = Some (Some ui)) /\
    (forall (i : nat) u, Uis o' !! i = Some (Some u) ->
       i = 0%nat \/ exists r, r ∈ l /\ Ui r = Some u /\ I u = Z.of_nat i) /\
    countShares (Uis o') = S (length l) /\
    (forall late, run o (l ++ late) = Ok o').
Proof.
  intros Hrun Hrep Hsh Hver Hnz Hnd Hone Hlen.
  destruct (decide (l = [])) as [->|Hne]; [unfold len in Hone; simpl in Hone; lia|].
  destruct (exists_last Hne) as (l' & rr & ->).
  rewrite len_snoc in Hlen, Hone.
  apply Forall_app in Hver as Hver2. destruct Hver2 as [Hver' Hrr].
  rewrite Forall_singleton in Hrr. destruct Hrr as (ui & Hui & Hck & Hrange).
  destruct (run_below_quorum l' o Hrun) as
    (o1 & Ho1 & Hrep1 & Hrun1 & HR1 & HS1 & HU1 & HX1 & HP1 & HT1 & HN1).
  { eapply Forall_impl; [exact Hver'|]. intros r (u & -> & _). by eexists. }
  { rewrite Hrep. unfold len at 1. simpl. lia. }
  rewrite Hrep in Hrep1. simpl in Hrep1.
  assert (Hver1 : Forall (verified o1) (l' ++ [rr])).
  { eapply Forall_impl; [exact Hver|]. intros r (u & Hu & Hc & Hr).
    exists u. split; [done|].
    split; [by rewrite (checkProof_ext o1 o)|by rewrite HN1]. }
  assert (Hstep : exists o',
    deliver o1 rr = Ok o' /\
    Reencrypted o' = Reencrypted o ++ [true] /\
    isDone (tni o') = true /\
    Uis o' !! 0%nat
      = Some (Some {| I := Index sh;
                      V := point_add (Mul (sV sh) (U o))
                                     (Mul (sV sh) (Xc o)) |}) /\
    (forall r u, r ∈ l' ++ [rr] -> Ui r = Some u ->
       Uis o' !! Z.to_nat (I u) = Some (Some u)) /\
    (forall (i : nat) u, Uis o' !! i = Some (Some u) ->
       i = 0%nat \/ exists r, r ∈ l' ++ [rr] /\ Ui r = Some u /\ I u = Z.of_nat i) /\
    countShares (Uis o') = S (length (l' ++ [rr]))).
  { unfold deliver. rewrite Hrun1, (reencryptReply_share o1 rr ui Hui).
    simpl. rewrite Hrep1, len_snoc, HT1.
    destruct (Z.leb_spec (int_sub (Threshold o) 1) (len l' + 1)); [|lia].
    rewrite (getUI_ok o1 sh) by (by rewrite HS1). simpl.
    set (u0 := {| I := Index sh; V := _ |}).
    destruct (storeUi (replicate (nList (tni o1)) None) 0 u0)
      as [us0|] eqn:Hst.
    2:{ unfold storeUi, len in Hst. rewrite length_replicate, HN1 in Hst.
        destruct (Z.ltb_spec 0 (Z.of_nat (nList (tni o)))); [done|lia]. }
    simpl. apply storeUi_ok in Hst as [_ ->].
    assert (Hslots : forall r u, r ∈ l' ++ [rr] -> Ui r = Some u ->
              (1 <= Z.to_nat (I u) < nList (tni o1))%nat).
    { intros r u Hin Hu. rewrite Forall_forall in Hver1, Hnz.
      destruct (Hver1 r Hin) as (u' & Hu' & _ & Hr).
      rewrite Hu in Hu'. injection Hu' as <-.
      specialize (Hnz r Hin). unfold shareIndex in Hnz. rewrite Hu in Hnz.
      simpl in Hnz. assert (I u <> 0) by congruence. lia. }
    destruct (verifyReplies_distinct o1 (l' ++ [rr])
                (<[Z.to_nat 0 := Some u0]> (replicate (nList (tni o1)) None))
                Hver1 Hnd)
      as (us & Hus & Hown & Hframe & Hcount).
    { by rewrite length_insert, length_replicate. }
    { intros r u Hin Hu. destruct (Hslots r u Hin Hu).
      rewrite list_lookup_insert_ne by (simpl; lia).
      apply lookup_replicate. split; [done|lia]. }
    rewrite Hus. simpl. eexists. split; [done|]. simpl.
    assert (Hn0 : (0 < nList (tni o1))%nat) by lia.
    split_and!.
    - by rewrite HR1.
    - done.
    - rewrite Hframe.
      + simpl. rewrite list_lookup_insert_eq by (by rewrite length_replicate).
        unfold u0. by rewrite HU1, HX1.
      + intros r u Hin Hu. destruct (Hslots r u Hin Hu). lia.
    - done.
    - intros i u Hi.
      destruct (verifyReplies_entries _ _ _ _ Hus i u Hi) as [Hold|(r & H1 & H2 & H3 & _)].
      + left. destruct i as [|i]; [done|]. simpl in Hold.
        rewrite list_lookup_insert_ne in Hold by done.
        apply lookup_replicate in Hold as [[=] _].
      + right. by exists r.
    - rewrite Hcount, (countShares_fill _ 0%nat).
      + by rewrite countShares_replicate.
      + apply lookup_replicate. split; [done|lia]. }
  destruct Hstep as (o' & Hd & HR' & Hdone' & H0 & Hall & Honly & Hcnt).
  exists o'.
  assert (Hfull : run o (l' ++ [rr]) = Ok o').
  { rewrite run_app, Ho1. simpl. by rewrite Hd. }
  split_and!; [done..|].
  intros late. rewrite run_app, Hfull. simpl. by apply run_done.
Qed.

End RunFacts.

(** ** The further properties at the small suite *)

Section ToyFacts.
Import Toy.

Lemma Start_uninitialised_witness :
  (Shared bareRoot = None /\
   Start bareRoot 0 = (bareRoot, Some "please initialize Shared first"%string)) /\
  (is_Some (Shared (leaf 1 None)) /\ U (leaf 1 None) = None /\
   Start (leaf 1 None) 0
     = (leaf 1 None, Some "please initialize U first"%string)).
Proof.
  assert (H1 : Shared bareRoot = None) by reflexivity.
  assert (H2 : is_Some (Shared (leaf 1 None))) by (by eexists).
  assert (H3 : U (leaf 1 None) = None) by reflexivity.
  exact (conj (conj H1 (proj1 (Start_uninitialised bareRoot 0) H1))
              (conj H2 (conj H3
                 (proj2 (Start_uninitialised (leaf 1 None) 0) H2 H3)))).
Defined.

Lemma Start_broadcasts_witness :
  Shared root4 = Some {| Index := 0; sV := secret 0 |} /\
  U root4 = Some encU /\
  (1 <= nRoster (tni root4))%nat /\
  Z.of_nat (nRoster (tni root4)) <= max_int /\
  let o' := (Start root4 2).1 in
  broadcasts (tni o') = broadcasts (tni root4) ++ [request root4 encU] /\
  Reencrypted o' = Reencrypted root4 /\
  isDone (tni o') = isDone (tni root4) /\
  ((Start root4 2).2 = None <->
   Z.of_nat 2 <= (Z.of_nat (nRoster (tni root4)) - 1) / 3).
Proof.
  assert (H1 : (1 <= nRoster (tni root4))%nat) by (simpl; lia).
  assert (H2 : Z.of_nat (nRoster (tni root4)) <= max_int) by zcompare.
  split_and!; [reflexivity|reflexivity|exact H1|exact H2|].
  exact (Start_broadcasts root4 2 {| Index := 0; sV := secret 0 |} encU
           eq_refl eq_refl eq_refl H1 H2).
Defined.

Lemma newThreshold_bounds_witness :
  (1 <= 4)%nat /\ Z.of_nat 4 <= max_int /\
  let t := newThreshold 4 in
  1 <= t <= Z.of_nat 4 /\
  3 * (Z.of_nat 4 - t) + 1 <= Z.of_nat 4 /\
  2 * (Z.of_nat 4 - t) + 1 <= t.
Proof.
  assert (H1 : (1 <= 4)%nat) by lia.
  assert (H2 : Z.of_nat 4 <= max_int) by zcompare.
  exact (conj H1 (conj H2 (newThreshold_bounds 4 H1 H2))).
Defined.

Lemma reencrypt_refuses_iff_witness :
  let node := leaf 3 (Some (fun _ => false)) in
  let sh := {| Index := 3; sV := secret 3 |} in
  let r := received in
  Shared node = Some sh /\
  exists reply,
    reencrypt node F5_1 None r = Ok (Done (SendToParent reply node), None) /\
    (Ui reply = None <->
     exists verify, Verify node = Some verify /\ verify (sr_Reencrypt r) = false) /\
    (forall ui, Ui reply = Some ui ->
       I ui = Index sh /\
       V ui = point_add (point_mul (sV sh) (sr_U r)) (point_mul (sV sh) (sr_Xc r)) /\
       is_Some (Ei reply) /\ is_Some (Fi reply)).
Proof.
  intros node sh r.
  exact (conj eq_refl (reencrypt_refuses_iff node sh F5_1 None r eq_refl)).
Defined.

Lemma reencrypt_frame_witness :
  let node := leaf 1 None in
  let o' := Done (SendToParent valid1 node) in
  reencrypt node F5_2 None received = Ok (o', None) /\
  None = (None : option error) /\ isDone (tni o') = true /\
  length (toParent (tni o')) = S (length (toParent (tni node))) /\
  broadcasts (tni o') = broadcasts (tni node) /\
  Reencrypted o' = Reencrypted node /\ Failures o' = Failures node /\
  replies o' = replies node /\ Uis o' = Uis node /\
  Shared o' = Shared node /\ Threshold o' = Threshold node.
Proof.
  intros node o'.
  assert (H : reencrypt node F5_2 None received = Ok (o', None))
    by (by vm_compute).
  exact (conj H (reencrypt_frame node F5_2 None received o' None H)).
Defined.

Lemma reencryptReply_frame_witness :
  let o := stateAfter root4 [valid1] in
  let o' := stateAfter root4 [valid1; valid2] in
  reencryptReply o valid2 = Ok (o', None) /\
  None = (None : option error) /\
  broadcasts (tni o') = broadcasts (tni o) /\
  toParent (tni o') = toParent (tni o) /\
  Shared o' = Shared o /\ U o' = U o /\ Xc o' = Xc o /\ Poly o' = Poly o /\
  Threshold o' = Threshold o /\ Verify o' = Verify o /\
  nRoster (tni o') = nRoster (tni o) /\
  nChildren (tni o') = nChildren (tni o) /\
  nList (tni o') = nList (tni o).
Proof.
  intros o o'.
  assert (H : reencryptReply o valid2 = Ok (o', None)) by (by vm_compute).
  exact (conj H (reencryptReply_frame o valid2 o' None H)).
Defined.

Lemma published_true_shape_witness :
  let o := stateAfter root4 [valid1] in
  let o' := stateAfter root4 [valid1; valid2] in
  reencryptReply o valid2 = Ok (o', None) /\
  Reencrypted o' = Reencrypted o ++ [true] /\
  isDone (tni o') = true /\
  length (Uis o') = nList (tni o) /\
  (0 < nList (tni o))%nat /\
  exists u, Uis o' !! 0%nat = Some (Some u).
Proof.
  intros o o'.
  assert (H1 : reencryptReply o valid2 = Ok (o', None)) by (by vm_compute).
  assert (H2 : Reencrypted o' = Reencrypted o ++ [true]) by (by vm_compute).
  exact (conj H1 (conj H2 (published_true_shape o valid2 o' None H1 H2))).
Defined.

Lemma verified_reply_out_of_range_witness :
  let o := stateAfter root4 [valid1] in
  let ui := {| I := 7; V := F5_0 |} in
  Ui stray = Some ui /\ checkProof o stray = Ok true /\
  ~ (0 <= I ui < Z.of_nat (nList (tni o))) /\
  int_sub (Threshold o) 1 <= len (replies o) + 1 /\
  reencryptReply o stray = Panic.
Proof.
  intros o ui.
  assert (H1 : Ui stray = Some ui) by (by vm_compute).
  assert (H2 : checkProof o stray = Ok true) by (by vm_compute).
  assert (H3 : ~ (0 <= I ui < Z.of_nat (nList (tni o))))
    by (intros [_ H]; by vm_compute in H).
  assert (H4 : int_sub (Threshold o) 1 <= len (replies o) + 1) by zcompare.
  exact (conj H1 (conj H2 (conj H3 (conj H4
           (verified_reply_out_of_range o stray ui H1 H2 H3 H4))))).
Defined.

Lemma run_decides_witness :
  let l := [valid1; valid2] in
  let o' := stateAfter root4 l in
  isDone (tni root4) = false /\
  min_int <= Failures root4 /\ Failures root4 + len l <= max_int /\
  run root4 l = Ok o' /\
  (Reencrypted o' = Reencrypted root4 <->
   ~ reachesQuorum root4 l /\ ~ reachesFailure root4 l) /\
  (~ reachesFailure root4 l ->
   (Reencrypted o' = Reencrypted root4 ++ [true] <-> reachesQuorum root4 l)) /\
  (~ reachesQuorum root4 l ->
   (Reencrypted o' = Reencrypted root4 ++ [false] <-> reachesFailure root4 l)).
Proof.
  intros l o'.
  assert (H1 : isDone (tni root4) = false) by reflexivity.
  assert (H2 : min_int <= Failures root4) by zcompare.
  assert (H3 : Failures root4 + len l <= max_int) by zcompare.
  assert (H4 : run root4 l = Ok o') by (by vm_compute).
  exact (conj H1 (conj H2 (conj H3 (conj H4
           (run_decides root4 l o' H1 H2 H3 H4))))).
Defined.

Lemma refusals_until_failure_witness :
  let l := [refused3; refused3] in
  isDone (tni root10) = false /\ Failures root10 = 0 /\
  (1 <= nRoster (tni root10))%nat /\
  Z.of_nat (nRoster (tni root10)) <= max_int /\
  Threshold root10 = newThreshold (nRoster (tni root10)) /\
  nChildren (tni root10) = (nRoster (tni root10) - 1)%nat /\
  Forall (fun rr => Ui rr = None) l /\ len l <= max_int /\
  let f := (Z.of_nat (nRoster (tni root10)) - 1) / 3 in
  exists o',
    run root10 l = Ok o' /\
    Failures o' = Z.min (len l) (Z.max 1 (f - 1)) /\
    Reencrypted o' = Reencrypted root10 ++
      (if (1 <=? len l) && (f - 1 <=? len l) then [false] else []) /\
    (Z.of_nat (nRoster (tni root10)) <= 9 -> 1 <= len l ->
     Reencrypted o' = Reencrypted root10 ++ [false]).
Proof.
  intros l.
  assert (H1 : isDone (tni root10) = false) by reflexivity.
  assert (H2 : Failures root10 = 0) by reflexivity.
  assert (H3 : (1 <= nRoster (tni root10))%nat) by (simpl; lia).
  assert (H4 : Z.of_nat (nRoster (tni root10)) <= max_int) by zcompare.
  assert (H5 : Threshold root10 = newThreshold (nRoster (tni root10)))
    by reflexivity.
  assert (H6 : nChildren (tni root10) = (nRoster (tni root10) - 1)%nat)
    by reflexivity.
  assert (H7 : Forall (fun rr => Ui rr = None) l)
    by (repeat constructor).
  assert (H8 : len l <= max_int) by zcompare.
  exact (conj H1 (conj H2 (conj H3 (conj H4 (conj H5 (conj H6 (conj H7 (conj H8
           (refusals_until_failure root10 l H1 H2 H3 H4 H5 H6 H7 H8))))))))).
Defined.

Lemma valid_replies_verified :
  Forall (verified root4) [valid1; valid2].
Proof.
  repeat constructor.
  - exists {| I := 1; V := (F5_1 : @Point Toy.suite) |}. split_and!; by vm_compute.
  - exists {| I := 2; V := (F5_3 : @Point Toy.suite) |}. split_and!; by vm_compute.
Defined.

Lemma quorum_of_verified_replies_witness :
  let l := [valid1; valid2] in
  let sh := {| Index := 0; sV := secret 0 |} in
  isDone (tni root4) = false /\ replies root4 = [] /\
  Shared root4 = Some sh /\
  Forall (verified root4) l /\
  Forall (fun r => shareIndex r <> Some 0) l /\
  NoDup (shareIndex <$> l) /\
  1 <= len l /\ len l = int_sub (Threshold root4) 1 /\
  exists o',
    run root4 l = Ok o' /\
    Reencrypted o' = Reencrypted root4 ++ [true] /\
    isDone (tni o') = true /\
    Uis o' !! 0%nat
      = Some (Some {| I := Index sh;
                      V := point_add (Mul (sV sh) (U root4))
                                     (Mul (sV sh) (Xc root4)) |}) /\
    (forall r ui, r ∈ l -> Ui r = Some ui ->
       Uis o' !! Z.to_nat (I ui) = Some (Some ui)) /\
    (forall (i : nat) u, Uis o' !! i = Some (Some u) ->
       i = 0%nat \/ exists r, r ∈ l /\ Ui r = Some u /\ I u = Z.of_nat i) /\
    countShares (Uis o') = S (length l) /\
    (forall late, run root4 (l ++ late) = Ok o').
Proof.
  intros l sh.
  assert (H1 : isDone (tni root4) = false) by reflexivity.
  assert (H2 : replies root4 = []) by reflexivity.
  assert (H3 : Shared root4 = Some sh) by reflexivity.
  assert (H5 : Forall (fun r => shareIndex r <> Some 0) l)
    by (repeat constructor; by vm_compute).
  assert (H6 : NoDup (shareIndex <$> l)).
  { vm_compute. repeat constructor.
    - intros H. apply elem_of_cons in H as [H|H]; [discriminate H|].
      by apply elem_of_nil in H.
    - intros H. by apply elem_of_nil in H. }
  assert (H7 : 1 <= len l) by zcompare.
  assert (H8 : len l = int_sub (Threshold root4) 1) by (by vm_compute).
  exact (conj H1 (conj H2 (conj H3 (conj valid_replies_verified
           (conj H5 (conj H6 (conj H7 (conj H8
             (quorum_of_verified_replies root4 sh l H1 H2 H3
                valid_replies_verified H5 H6 H7 H8))))))))).
Defined.

Lemma run_total_witness :
  let l := [valid1; refused3; valid2] in
  ready root4 /\
  Forall (fun rr => Ui rr = None \/ checkable root4 rr) l /\
  exists o', run root4 l = Ok o'.
Proof.
  intros l.
  assert (H2 : Forall (fun rr => Ui rr = None \/ checkable root4 rr) l).
  { constructor; [right; apply valid1_checkable|].
    constructor; [by left|].
    constructor; [right; apply valid2_checkable|constructor]. }
  exact (conj toy_ready (conj H2 (run_total l root4 toy_ready H2))).
Defined.

Lemma reencrypt_reply_accepted_witness :
  let node := leaf 2 None in
  let sh := {| Index := 2; sV := secret 2 |} in
  Shared node = Some sh /\
  U root4 = Some encU /\
  sr_Reencrypt received = request root4 encU /\
  Poly root4 = Some poly /\
  poly (Index sh) = point_mul (sV sh) point_base /\
  exists reply,
    reencrypt node F5_3 None received
      = Ok (Done (SendToParent reply node), None) /\
    checkProof root4 reply = Ok true.
Proof.
  intros node sh.
  split_and!; [reflexivity..|].
  exact (reencrypt_reply_accepted (laws := toy_laws) node root4 sh F5_3 None
           encU poly received eq_refl eq_refl eq_refl eq_refl eq_refl eq_refl).
Defined.

End ToyFacts.
